(** * CameraCommander: dual-axis turntable firmware (ESP8266 reference build)

    A shallow embedding of [GearedStepper.cpp] and of the command
    dispatcher of [main.cpp], with the properties of the written
    specification stated and settled against it.

    - C [float] is IEEE-754 binary32, modelled with the Standard Library's
      [SpecFloat] at precision 24 and maximal exponent 128, every operation
      rounding to nearest-even as the target does.
    - C [int] and [long] are modelled in [Z].  Signed overflow is undefined
      in C; theorems that depend on its absence state the range.
    - The AccelStepper motion primitive, the C library ([sscanf], the
      out-of-range result of [lroundf]) and the serial transport are
      external collaborators: they appear as interfaces.
    - Hardware lines are a trace of [pinMode]/[digitalWrite] events, shared
      by both axis objects; the level of a line is its latest write. *)

From Stdlib Require Import QArith Qround.
From Stdlib Require Import ZArith List String Ascii Bool Lia SpecFloat DecimalString.
Import ListNotations.

Local Open Scope Z_scope.

(** ** IEEE-754 binary32 *)

Module F32.

Definition prec : Z := 24.
Definition emax : Z := 128.

Definition float32 : Type := spec_float.

Definition mul : float32 -> float32 -> float32 := SFmul prec emax.
Definition div : float32 -> float32 -> float32 := SFdiv prec emax.

(** Unary minus. *)
Definition opp : float32 -> float32 := SFopp.

(** Conversion of a C integer to [float]. *)
Definition of_Z (z : Z) : float32 := binary_normalize prec emax z 0 false.

(** The decimal literal [m * 10^-k] with suffix [f]: the binary32 value
    nearest to it ([SFdiv] rounds the exact quotient once). *)
Definition of_decimal (m : positive) (k : nat) : float32 :=
  SFdiv prec emax (S754_finite false m 0)
                  (S754_finite false (Z.to_pos (10 ^ Z.of_nat k)) 0).

(** Nearest integer to [m * 2^e], halfway cases away from zero. *)
Definition round_half_away (m : positive) (e : Z) : Z :=
  if 0 <=? e then Zpos m * 2 ^ e
  else (Zpos m + 2 ^ (- e - 1)) / 2 ^ (- e).

Definition LONG_MIN : Z := - 2 ^ 31.
Definition LONG_MAX : Z := 2 ^ 31 - 1.

Definition in_long (z : Z) : bool := (LONG_MIN <=? z) && (z <=? LONG_MAX).

(** The value of a [long] object: any integer, read modulo [2^32]. *)
Definition to_long (z : Z) : Z := (z - LONG_MIN) mod 2 ^ 32 + LONG_MIN.

(** Valid binary32 data: what a C [float] object can hold. *)
Definition valid (x : float32) : bool := valid_binary prec emax x.

(** The least exponent of binary32 (that of the subnormal numbers). *)
Definition emin : Z := -149.

(** Number of significant bits. *)
Definition digits (p : positive) : Z := Zpos (digits2_pos p).

(** Rounding of the exact value [m * 2^e]. *)
Definition bra (s : bool) (m : Z) (e : Z) : float32 :=
  binary_round_aux prec emax s m e loc_Exact.

(** A rounded mantissa and exponent: finite, or infinite on overflow. *)
Definition cond_fin (s : bool) (m : positive) (e : Z) : float32 :=
  if e <=? 104 then S754_finite s m e else S754_infinity s.

(** A normal binary32 number [mo * 2^eo] whose value is an integer. *)
Definition int_float (mo : positive) (eo : Z) : Prop :=
  digits mo = 24 /\ (eo < 0 -> exists y : positive, Zpos mo = Zpos y * 2 ^ (- eo)).

(** [2^k] and 1.0 as binary32 numbers. *)
Definition pow2_float (k : Z) : float32 := S754_finite false 8388608 (k - 23).
Definition one : float32 := S754_finite false 8388608 (-23).

Definition sign_of (z : Z) : bool := z <? 0.

(** What every result of a binary32 operation satisfies. *)
Definition exp_ok (x : float32) : Prop :=
  match x with
  | S754_finite _ _ e => emin <= e
  | _ => True
  end.

(** The rational value of a finite binary32 number. *)
Definition value (x : float32) : option Q :=
  match x with
  | S754_zero _ => Some 0%Q
  | S754_finite s m e =>
      Some ((if s then - (1) else 1) * inject_Z (Zpos m) * Qpower 2 e)%Q
  | _ => None
  end.

(** Nearest integer to a rational, halfway cases away from zero. *)
Definition Qround_half_away (q : Q) : Z :=
  if Qle_bool 0 q then Qfloor (q + (1 # 2)) else - Qfloor (- q + (1 # 2)).

(** Integers with at most 24 significant bits: binary32 holds them
    exactly. *)
Definition sig24 (z : Z) : Prop :=
  z = 0 \/ exists (y : positive) (a : Z), 0 <= a /\ Z.abs z = Zpos y * 2 ^ a /\ digits y <= 24.

End F32.

Import F32.

(** ** The C library *)

(** [sscanf_ff s] stands for [sscanf(s, "%f %f", &a, &b)] with [a] and [b]
    initially zero: the returned count and the two objects afterwards.
    [lroundf_range_error x] is the value [lroundf] returns where the C
    standard leaves it unspecified (NaN, infinities, results outside
    [long]); being a [long], it is read modulo [2^32]. *)
Class Libc : Type := {
  sscanf_ff : string -> Z * float32 * float32;
  lroundf_range_error : float32 -> Z
}.

(** [lroundf] of <math.h>. *)
Definition lroundf `{Libc} (x : float32) : Z :=
  match x with
  | S754_zero _ => 0
  | S754_finite s m e =>
      let r := if s then - round_half_away m e else round_half_away m e in
      if in_long r then r else to_long (lroundf_range_error x)
  | _ => to_long (lroundf_range_error x)
  end.

(** The inputs for which the C standard defines the result of [lroundf]. *)
Definition lroundf_defined (x : float32) : Prop :=
  match x with
  | S754_zero _ => True
  | S754_finite _ m e => in_long (round_half_away m e) = true
  | _ => False
  end.

(** [isspace] in the C locale. *)
Definition isspace (c : ascii) : bool :=
  let n := N_of_ascii c in
  (((9 <=? n) && (n <=? 13)) || (n =? 32))%N.

(** [strchr(s, c) != NULL]: the terminating NUL counts as part of [s]. *)
Fixpoint strchr (s : string) (c : ascii) : bool :=
  match s with
  | EmptyString => Ascii.eqb c zero
  | String a s' => Ascii.eqb a c || strchr s' c
  end.

(** ** Arduino [String] *)

Fixpoint trim_left (s : string) : string :=
  match s with
  | EmptyString => EmptyString
  | String c s' => if isspace c then trim_left s' else s
  end.

Fixpoint trim_right (s : string) : string :=
  match s with
  | EmptyString => EmptyString
  | String c s' =>
      match trim_right s' with
      | EmptyString => if isspace c then EmptyString else String c EmptyString
      | t => String c t
      end
  end.

(** [String::trim]: leading, then trailing white space is removed. *)
Definition trim (s : string) : string := trim_right (trim_left s).

(** [String::charAt]: NUL when out of range. *)
Definition charAt (s : string) (i : nat) : ascii :=
  match String.get i s with
  | Some c => c
  | None => zero
  end.

(** The C string at [s.c_str() + 1]: it ends at the first NUL. *)
Fixpoint c_str (s : string) : string :=
  match s with
  | EmptyString => EmptyString
  | String c s' => if Ascii.eqb c zero then EmptyString else String c (c_str s')
  end.

Definition c_str_plus1 (s : string) : string :=
  match s with
  | EmptyString => EmptyString
  | String _ s' => c_str s'
  end.

(** [String(int)]: decimal text. *)
Definition String_of_int (z : Z) : string := NilZero.string_of_int (Z.to_int z).

(** ** Digital output lines *)

Inductive level : Type := LOW | HIGH.

Inductive gpio_event : Type :=
| PinModeOutput (pin : N)
| DigitalWrite (pin : N) (v : level).

(** Events, latest first. *)
Definition gpio : Type := list gpio_event.

Definition pinMode_OUTPUT (pin : N) (io : gpio) : gpio := PinModeOutput pin :: io.
Definition digitalWrite (pin : N) (v : level) (io : gpio) : gpio := DigitalWrite pin v :: io.

(** Level of a line: its latest write, if any. *)
Fixpoint pin_level (pin : N) (io : gpio) : option level :=
  match io with
  | [] => None
  | DigitalWrite p v :: io' => if N.eqb p pin then Some v else pin_level pin io'
  | PinModeOutput _ :: io' => pin_level pin io'
  end.

(** ** The motion primitive (AccelStepper), as the interface the wrapper uses *)

Class AccelStepper (A : Type) : Type := {
  stp_make : N -> N -> A;
  stp_setMaxSpeed : float32 -> A -> A;
  stp_setAcceleration : float32 -> A -> A;
  stp_moveTo : Z -> A -> A;
  stp_move : Z -> A -> A;
  stp_run : A -> A * bool;
  stp_runToPosition : A -> A;
  stp_stop : A -> A;
  stp_currentPosition : A -> Z;
  stp_setCurrentPosition : Z -> A -> A;
  stp_distanceToGo : A -> Z;
  stp_targetPosition : A -> Z;
  stp_isRunning : A -> bool
}.

(** ** GearedStepper.cpp *)

Section GearedStepper.

Context {A : Type} `{AccelStepper A} `{Libc}.

Record GearedStepper : Type := mkGearedStepper {
  _enable_pin : N;
  _ms1_pin : N;
  _ms2_pin : N;
  _ms3_pin : N;
  _base_steps_per_rot : Z;
  _gear_ratio : float32;
  _microstep_resolution : Z;
  _stepper : A
}.

Definition with_stepper (f : A -> A) (g : GearedStepper) : GearedStepper :=
  mkGearedStepper (_enable_pin g) (_ms1_pin g) (_ms2_pin g) (_ms3_pin g)
    (_base_steps_per_rot g) (_gear_ratio g) (_microstep_resolution g)
    (f (_stepper g)).

Definition with_microstep_resolution (res : Z) (g : GearedStepper) : GearedStepper :=
  mkGearedStepper (_enable_pin g) (_ms1_pin g) (_ms2_pin g) (_ms3_pin g)
    (_base_steps_per_rot g) (_gear_ratio g) res (_stepper g).

(** Constructor. *)
Definition GearedStepper_new (step_pin dir_pin enable_pin ms1_pin ms2_pin ms3_pin : N)
    (base_steps_per_rot : Z) (gear_ratio : float32) : GearedStepper :=
  mkGearedStepper enable_pin ms1_pin ms2_pin ms3_pin
    base_steps_per_rot gear_ratio 1 (stp_make step_pin dir_pin).

(** Motion control passthroughs. *)
Definition setMaxSpeed (s : float32) := with_stepper (stp_setMaxSpeed s).
Definition setAcceleration (a : float32) := with_stepper (stp_setAcceleration a).
Definition moveTo (absPos : Z) := with_stepper (stp_moveTo absPos).
Definition move (rel : Z) := with_stepper (stp_move rel).
Definition run (g : GearedStepper) : GearedStepper * bool :=
  (with_stepper (fun s => fst (stp_run s)) g, snd (stp_run (_stepper g))).
Definition runToPosition := with_stepper stp_runToPosition.
Definition stop := with_stepper stp_stop.

Definition currentPosition (g : GearedStepper) : Z := stp_currentPosition (_stepper g).
Definition setCurrentPosition (p : Z) := with_stepper (stp_setCurrentPosition p).
Definition distanceToGo (g : GearedStepper) : Z := stp_distanceToGo (_stepper g).
Definition targetPosition (g : GearedStepper) : Z := stp_targetPosition (_stepper g).
Definition isRunning (g : GearedStepper) : bool := stp_isRunning (_stepper g).

(** Driver enable/disable: the line is active-low. *)
Definition enable (g : GearedStepper) (io : gpio) : gpio := digitalWrite (_enable_pin g) LOW io.
Definition disable (g : GearedStepper) (io : gpio) : gpio := digitalWrite (_enable_pin g) HIGH io.

(** The three select-line writes of one [case]. *)
Definition write_ms (g : GearedStepper) (v1 v2 v3 : level) (io : gpio) : gpio :=
  digitalWrite (_ms3_pin g) v3 (digitalWrite (_ms2_pin g) v2 (digitalWrite (_ms1_pin g) v1 io)).

(** [setMicrostepResolution]: the field is assigned first, then the
    [switch] (without [default]) drives the select lines. *)
Definition setMicrostepResolution (res : Z) (g : GearedStepper) (io : gpio)
    : GearedStepper * gpio :=
  let g' := with_microstep_resolution res g in
  (g',
   if res =? 1 then write_ms g' LOW LOW LOW io
   else if res =? 2 then write_ms g' HIGH LOW LOW io
   else if res =? 4 then write_ms g' LOW HIGH LOW io
   else if res =? 8 then write_ms g' HIGH HIGH LOW io
   else if res =? 16 then write_ms g' HIGH HIGH HIGH io
   else io).

Definition getMicrostepResolution (g : GearedStepper) : Z := _microstep_resolution g.

Definition begin (g : GearedStepper) (io : gpio) : GearedStepper * gpio :=
  let io := pinMode_OUTPUT (_enable_pin g) io in
  let io := pinMode_OUTPUT (_ms1_pin g) io in
  let io := pinMode_OUTPUT (_ms2_pin g) io in
  let io := pinMode_OUTPUT (_ms3_pin g) io in
  let io := disable g io in
  setMicrostepResolution 16 g io.

(** Gearbox helpers. *)
Definition getGearRatio (g : GearedStepper) : float32 := _gear_ratio g.
Definition getBaseStepsPerRotation (g : GearedStepper) : Z := _base_steps_per_rot g.

(** [float GearedStepper::maxSpeed() const { return maxSpeed(); }]: the
    body is a call of the same member.  [fuel] bounds the number of nested
    calls; [None] is "has not returned yet". *)
Fixpoint maxSpeed (fuel : nat) (g : GearedStepper) : option float32 :=
  match fuel with
  | O => None
  | S fuel' => maxSpeed fuel' g
  end.

(** [float GearedStepper::acceleration() const { return acceleration(); }] *)
Fixpoint acceleration (fuel : nat) (g : GearedStepper) : option float32 :=
  match fuel with
  | O => None
  | S fuel' => acceleration fuel' g
  end.

Definition getOutputStepsPerRotation (g : GearedStepper) : Z :=
  lroundf (mul (of_Z (_base_steps_per_rot g)) (_gear_ratio g)).

End GearedStepper.

Arguments GearedStepper A : clear implicits.

(** ** main.cpp *)

Definition FW_VERSION : string := "1.0.1".

(** Pin mapping (NodeMCU v3: the GPIO numbers behind D0..D7). *)
Definition D0 : N := 16.
Definition D1 : N := 5.
Definition D2 : N := 4.
Definition D3 : N := 0.
Definition D4 : N := 2.
Definition D5 : N := 14.
Definition D6 : N := 12.
Definition D7 : N := 13.

Definition TT_STEP_PIN : N := D4.
Definition TT_DIR_PIN : N := D5.
Definition TT_ENABLE_PIN : N := D0.

Definition VT_STEP_PIN : N := D6.
Definition VT_DIR_PIN : N := D7.
Definition VT_ENABLE_PIN : N := D0.

Definition MS1_PIN : N := D1.
Definition MS2_PIN : N := D2.
Definition MS3_PIN : N := D3.

(** Mechanics. *)
Definition MOTOR_STEPS_PER_REV : Z := 100.
Definition GEAR_RATIO_TT : float32 := of_decimal 11335 3.
Definition GEAR_RATIO_VT : float32 := mul (of_decimal 62 1) (of_decimal 75 1).

Definition RATIO_TT_TO_VT : float32 := div GEAR_RATIO_VT GEAR_RATIO_TT.
Definition ROT_SPEED0 : float32 := of_decimal 1500 1.
Definition ROT_ACCEL0 : float32 := of_decimal 800 1.

Section Main.

Context {A : Type} `{AccelStepper A} `{Libc}.

(** The file-scope objects.  [rot.s] and [til.s] are references to
    [turntableStepper] and [tiltStepper]: one object each, so only the
    [dir] fields of the two [Axis] structs are state of their own. *)
Record World : Type := mkWorld {
  turntableStepper : GearedStepper A;
  tiltStepper : GearedStepper A;
  rot_dir : Z;
  til_dir : Z;
  pins : gpio;
  serial_out : list string
}.

Definition set_tt (g : GearedStepper A) (w : World) : World :=
  mkWorld g (tiltStepper w) (rot_dir w) (til_dir w) (pins w) (serial_out w).
Definition set_vt (g : GearedStepper A) (w : World) : World :=
  mkWorld (turntableStepper w) g (rot_dir w) (til_dir w) (pins w) (serial_out w).
Definition set_rot_dir (d : Z) (w : World) : World :=
  mkWorld (turntableStepper w) (tiltStepper w) d (til_dir w) (pins w) (serial_out w).
Definition set_til_dir (d : Z) (w : World) : World :=
  mkWorld (turntableStepper w) (tiltStepper w) (rot_dir w) d (pins w) (serial_out w).
Definition set_pins (io : gpio) (w : World) : World :=
  mkWorld (turntableStepper w) (tiltStepper w) (rot_dir w) (til_dir w) io (serial_out w).

(** A method of [turntableStepper] (resp. [tiltStepper]) without
    hardware effect. *)
Definition on_tt (f : GearedStepper A -> GearedStepper A) (w : World) : World :=
  set_tt (f (turntableStepper w)) w.
Definition on_vt (f : GearedStepper A -> GearedStepper A) (w : World) : World :=
  set_vt (f (tiltStepper w)) w.

(** A method that only drives lines. *)
Definition io_tt (f : GearedStepper A -> gpio -> gpio) (w : World) : World :=
  set_pins (f (turntableStepper w) (pins w)) w.
Definition io_vt (f : GearedStepper A -> gpio -> gpio) (w : World) : World :=
  set_pins (f (tiltStepper w) (pins w)) w.

(** A method that changes the object and drives lines. *)
Definition obj_io_tt (f : GearedStepper A -> gpio -> GearedStepper A * gpio) (w : World) : World :=
  let r := f (turntableStepper w) (pins w) in set_pins (snd r) (set_tt (fst r) w).
Definition obj_io_vt (f : GearedStepper A -> gpio -> GearedStepper A * gpio) (w : World) : World :=
  let r := f (tiltStepper w) (pins w) in set_pins (snd r) (set_vt (fst r) w).

(** [ack]: [Serial.println]. *)
Definition ack (msg : string) (w : World) : World :=
  mkWorld (turntableStepper w) (tiltStepper w) (rot_dir w) (til_dir w) (pins w)
    (serial_out w ++ [msg]).

(** [degToMicrosteps].  The product is stored in a [long]; overflow of a
    signed product is undefined in C, so [u] is its value where it fits a
    [long], and the properties that depend on the product assume
    [in_long] of it. *)
Definition degToMicrosteps (stp : GearedStepper A) (deg : float32) : Z :=
  let u := getOutputStepsPerRotation stp * getMicrostepResolution stp in
  lroundf (mul (div deg (of_decimal 3600 1)) (of_Z u)).

Definition setRotaryMotorSpeed (v a : float32) (w : World) : World :=
  let w := on_tt (setMaxSpeed v) w in
  let w := on_tt (setAcceleration a) w in
  let w := on_vt (setMaxSpeed (mul v RATIO_TT_TO_VT)) w in
  on_vt (setAcceleration (mul a RATIO_TT_TO_VT)) w.

(** The objects as their constructors leave them, before [setup]. *)
Definition boot : World :=
  mkWorld
    (GearedStepper_new TT_STEP_PIN TT_DIR_PIN TT_ENABLE_PIN MS1_PIN MS2_PIN MS3_PIN
       MOTOR_STEPS_PER_REV GEAR_RATIO_TT)
    (GearedStepper_new VT_STEP_PIN VT_DIR_PIN VT_ENABLE_PIN MS1_PIN MS2_PIN MS3_PIN
       MOTOR_STEPS_PER_REV GEAR_RATIO_VT)
    1 1 [] [].

(** [setup], up to the boot banner (informational text). *)
Definition setup (banner : string) (w : World) : World :=
  let w := obj_io_tt begin w in
  let w := obj_io_vt begin w in
  let w := setRotaryMotorSpeed ROT_SPEED0 ROT_ACCEL0 w in
  ack banner w.

(** The body of [loop] from [line.trim()] on: one command line is
    interpreted.  [None]: the call has not returned with [fuel] nested
    calls. *)
Definition dispatch (fuel : nat) (input : string) (w : World) : option World :=
  let line := trim input in
  if (String.length line =? 0)%nat then Some w else
  let c := charAt line 0 in
  (* Version *)
  if (c =? "V")%char || (c =? "v")%char then Some (ack ("VERSION " ++ FW_VERSION) w) else
  (* Move  M pan tilt *)
  if (c =? "M")%char || (c =? "m")%char then
    let '(n, panDeg, tiltDeg) := sscanf_ff (c_str_plus1 line) in
    if negb (n =? 2) then Some (ack "ERR Syntax" w) else
    let ps := degToMicrosteps (turntableStepper w) panDeg in
    let ts := degToMicrosteps (tiltStepper w) tiltDeg in
    let w := io_tt enable w in
    let w := io_vt enable w in
    let w := on_tt (move ps) w in
    let w := on_vt (move ts) w in
    Some (ack "OK M" w)
  else
  if (c =? "Q")%char || (c =? "q")%char then
    if negb (distanceToGo (turntableStepper w) =? 0)
       || negb (distanceToGo (tiltStepper w) =? 0)
    then Some (ack "BUSY" w)
    else
      let w := io_tt disable w in
      let w := io_vt disable w in
      Some (ack "DONE" w)
  else
  (* micro-step *)
  if strchr "12486" c then
    let res := if (c =? "6")%char then 16 else Z.of_N (N_of_ascii c) - Z.of_N (N_of_ascii "0") in
    let w := obj_io_tt (setMicrostepResolution res) w in
    let w := obj_io_vt (setMicrostepResolution res) w in
    Some (ack ("OK MICROSTEP " ++ String_of_int res) w)
  else
  (* Pan axis (rot) *)
  if (c =? "n")%char || (c =? "N")%char then
    Some (ack "OK ROT STEP" (on_tt (move (rot_dir w)) w))
  else if (c =? "c")%char || (c =? "C")%char then
    let r := getOutputStepsPerRotation (turntableStepper w)
             * getMicrostepResolution (turntableStepper w) in
    Some (ack "OK ROT REV" (on_tt (move (rot_dir w * r)) w))
  else if (c =? "r")%char || (c =? "R")%char then
    Some (ack "OK ROT DIR" (set_rot_dir (- rot_dir w) w))
  else if (c =? "x")%char || (c =? "X")%char then
    Some (ack "OK ROT STOP" (on_tt stop w))
  else
  (* Tilt axis (til) *)
  if (c =? "w")%char || (c =? "W")%char then
    Some (ack "OK TILT STEP" (on_vt (move (til_dir w)) w))
  else if (c =? "p")%char || (c =? "P")%char then
    let r := getOutputStepsPerRotation (tiltStepper w)
             * getMicrostepResolution (tiltStepper w) in
    Some (ack "OK TILT REV" (on_vt (move (til_dir w * r)) w))
  else if (c =? "t")%char || (c =? "T")%char then
    Some (ack "OK TILT DIR" (set_til_dir (- til_dir w) w))
  else if (c =? "z")%char then
    Some (ack "OK TILT STOP" (on_vt stop w))
  else
  (* Speed adjust *)
  if (c =? "+")%char || (c =? "-")%char then
    let f := if (c =? "+")%char then of_decimal 110 2 else of_decimal 90 2 in
    match maxSpeed fuel (turntableStepper w) with
    | None => None
    | Some v =>
        Some (ack "OK SPEED" (setRotaryMotorSpeed (mul v f) (mul ROT_ACCEL0 f) w))
    end
  else
  (* Global stop *)
  if (c =? "X")%char then Some (ack "OK STOP" (on_vt stop (on_tt stop w))) else
  (* Driver enable / disable *)
  if (c =? "d")%char || (c =? "D")%char then
    Some (ack "OK DRIVERS OFF" (io_vt disable (io_tt disable w)))
  else if (c =? "e")%char || (c =? "E")%char then
    Some (ack "OK DRIVERS ON" (io_vt enable (io_tt enable w)))
  else
  (* Unknown *)
  Some (ack "ERR Unknown" w).

(** [loop]: both primitives are advanced, then a line, if one is
    available, is interpreted. *)
Definition loop (fuel : nat) (available : option string) (w : World) : option World :=
  let w := on_tt (fun g => fst (run g)) w in
  let w := on_vt (fun g => fst (run g)) w in
  match available with
  | None => Some w
  | Some input => dispatch fuel input w
  end.

End Main.

Arguments World A : clear implicits.

(** ** Reference instances of the external interfaces

    Executable stand-ins, used to run the model on concrete inputs: a
    position-only motion primitive that steps once per [run] and stops on the
    spot, and a scanner for plain decimal numbers.  The scanner knows no
    hexadecimal numbers, infinities or NaN and takes an exponent only when
    it is complete; it is run on decimal inputs without such parts, where
    the scan is the one the C standard prescribes. *)

Module Ref.

Record SimStepper : Type := mkSim {
  sim_pos : Z;
  sim_target : Z;
  sim_maxSpeed : float32;
  sim_acceleration : float32
}.

Definition sim_run (s : SimStepper) : SimStepper * bool :=
  let d := sim_target s - sim_pos s in
  if d =? 0 then (s, false)
  else (mkSim (sim_pos s + Z.sgn d) (sim_target s) (sim_maxSpeed s) (sim_acceleration s),
        negb (d - Z.sgn d =? 0)).

#[export] Instance sim_stepper : AccelStepper SimStepper := {
  stp_make := fun _ _ => mkSim 0 0 (of_Z 1) (S754_zero false);
  stp_setMaxSpeed := fun v s => mkSim (sim_pos s) (sim_target s) v (sim_acceleration s);
  stp_setAcceleration := fun a s => mkSim (sim_pos s) (sim_target s) (sim_maxSpeed s) a;
  stp_moveTo := fun p s => mkSim (sim_pos s) p (sim_maxSpeed s) (sim_acceleration s);
  stp_move := fun r s => mkSim (sim_pos s) (sim_pos s + r) (sim_maxSpeed s) (sim_acceleration s);
  stp_run := sim_run;
  stp_runToPosition := fun s => mkSim (sim_target s) (sim_target s) (sim_maxSpeed s) (sim_acceleration s);
  stp_stop := fun s => mkSim (sim_pos s) (sim_pos s) (sim_maxSpeed s) (sim_acceleration s);
  stp_currentPosition := sim_pos;
  stp_setCurrentPosition := fun p s => mkSim p p (sim_maxSpeed s) (sim_acceleration s);
  stp_distanceToGo := fun s => sim_target s - sim_pos s;
  stp_targetPosition := sim_target;
  stp_isRunning := fun s => negb (sim_target s - sim_pos s =? 0)
}.

Definition is_digit (c : ascii) : bool :=
  let n := N_of_ascii c in ((48 <=? n) && (n <=? 57))%N.

(** Digits from the head of [s], accumulated onto [acc]; their number. *)
Fixpoint scan_digits (s : string) (acc : Z) (cnt : nat) : Z * nat * string :=
  match s with
  | String c s' =>
      if is_digit c
      then scan_digits s' (acc * 10 + (Z.of_N (N_of_ascii c) - 48)) (S cnt)
      else (acc, cnt, s)
  | EmptyString => (acc, cnt, s)
  end.

Definition scan_sign (s : string) : bool * string :=
  match s with
  | String "-" s' => (true, s')
  | String "+" s' => (false, s')
  | _ => (false, s)
  end.

(** An exponent part [e[+-]ddd], if complete. *)
Definition scan_exponent (s : string) : Z * string :=
  match s with
  | String c s' =>
      if (c =? "e")%char || (c =? "E")%char then
        let '(neg, s1) := scan_sign s' in
        let '(x, n, s2) := scan_digits s1 0 0 in
        if (n =? 0)%nat then (0, s) else ((if neg then - x else x), s2)
      else (0, s)
  | EmptyString => (0, s)
  end.

(** The binary32 value nearest to [m * 10^x]. *)
Definition decimal_value (neg : bool) (m x : Z) : float32 :=
  match m with
  | Zpos p =>
      if 0 <=? x then binary_normalize prec emax (if neg then - (m * 10 ^ x) else m * 10 ^ x) 0 false
      else SFdiv prec emax (S754_finite neg p 0)
                           (S754_finite false (Z.to_pos (10 ^ (- x))) 0)
  | _ => S754_zero neg
  end.

(** One [%f] conversion: white space, then a decimal number. *)
Definition scan_float (s : string) : option (float32 * string) :=
  let '(neg, s1) := scan_sign (trim_left s) in
  let '(ip, n1, s2) := scan_digits s1 0 0 in
  let '(m, n2, s3) :=
    match s2 with
    | String "." s' => scan_digits s' ip 0
    | _ => (ip, 0%nat, s2)
    end in
  if (n1 + n2 =? 0)%nat then None
  else
    let '(x, s4) := scan_exponent s3 in
    Some (decimal_value neg m (x - Z.of_nat n2), s4).

(** [sscanf(s, "%f %f", &a, &b)]: the count is [EOF] when the input ends
    before the first conversion. *)
Definition scan_ff (s : string) : Z * float32 * float32 :=
  match scan_float s with
  | None => ((if (String.length (trim_left s) =? 0)%nat then -1 else 0),
             S754_zero false, S754_zero false)
  | Some (a, rest) =>
      match scan_float rest with
      | None => (1, a, S754_zero false)
      | Some (b, _) => (2, a, b)
      end
  end.

#[export] Instance libc : Libc := {
  sscanf_ff := scan_ff;
  lroundf_range_error := fun _ => 0
}.

(** The state after [setup] (banner left out of the text). *)
Definition ready : World SimStepper := setup EmptyString boot.

End Ref.

(** ** Vocabulary of the specification *)

(** The first non-whitespace character of an input line, if any. *)
Fixpoint first_nonspace (s : string) : option ascii :=
  match s with
  | EmptyString => None
  | String c s' => if isspace c then first_nonspace s' else Some c
  end.

(** ASCII upper case of a letter. *)
Definition toupper (c : ascii) : ascii :=
  let n := N_of_ascii c in
  if ((97 <=? n) && (n <=? 122))%N then ascii_of_N (n - 32) else c.

(** The replies the dispatcher can produce, apart from the microstep
    acknowledgement, which carries a number. *)
Definition fixed_replies : list string :=
  ["VERSION 1.0.1"; "ERR Syntax"; "OK M"; "BUSY"; "DONE";
   "OK ROT STEP"; "OK ROT REV"; "OK ROT DIR"; "OK ROT STOP";
   "OK TILT STEP"; "OK TILT REV"; "OK TILT DIR"; "OK TILT STOP";
   "OK DRIVERS OFF"; "OK DRIVERS ON"; "ERR Unknown"]%string.

Definition is_reply (msg : string) : Prop :=
  In msg fixed_replies \/ exists n : Z, msg = ("OK MICROSTEP " ++ String_of_int n)%string.

(** The levels (MS1, MS2, MS3) the [switch] of [setMicrostepResolution]
    writes for a listed value. *)
Definition select_pattern (res : Z) : level * level * level :=
  if res =? 2 then (HIGH, LOW, LOW)
  else if res =? 4 then (LOW, HIGH, LOW)
  else if res =? 8 then (HIGH, HIGH, LOW)
  else if res =? 16 then (HIGH, HIGH, HIGH)
  else (LOW, LOW, LOW).

(** An event that leaves no line LOW. *)
Definition drives_high (ev : gpio_event) : Prop :=
  match ev with
  | DigitalWrite _ LOW => False
  | _ => True
  end.

(** The accepted microstep settings. *)
Definition valid_microstep (res : Z) : Prop :=
  res = 1 \/ res = 2 \/ res = 4 \/ res = 8 \/ res = 16.

(** The fields of a text: its maximal runs of characters other than white
    space, [cur] being the run under way. *)
Fixpoint fields_from (cur : string) (s : string) : list string :=
  match s with
  | EmptyString => match cur with EmptyString => [] | _ => [cur] end
  | String c s' =>
      if isspace c
      then match cur with EmptyString => fields_from EmptyString s' | _ => cur :: fields_from EmptyString s' end
      else fields_from (cur ++ String c EmptyString) s'
  end.

(** The argument fields of a command line: those after the command
    character. *)
Definition argument_fields (line : string) : list string :=
  match trim line with
  | EmptyString => []
  | String _ rest => fields_from EmptyString rest
  end.

(** A numeric field, in the words of the specification: a decimal number
    (sign, digits, fraction and exponent) and nothing else. *)
Definition numeric_field (f : string) : bool :=
  match Ref.scan_float f with
  | Some (_, EmptyString) => true
  | _ => false
  end.

(** ['M <a> <b>'] with both numeric fields present and well formed. *)
Definition two_numeric_fields (line : string) : bool :=
  match argument_fields line with
  | [a; b] => numeric_field a && numeric_field b
  | _ => false
  end.

Section Vocabulary.

Context {A : Type} `{AccelStepper A} `{Libc}.

(** The immutable members of an axis object are those of [g0]. *)
Definition same_wiring (g g0 : GearedStepper A) : Prop :=
  _enable_pin g = _enable_pin g0 /\
  _ms1_pin g = _ms1_pin g0 /\ _ms2_pin g = _ms2_pin g0 /\ _ms3_pin g = _ms3_pin g0 /\
  _base_steps_per_rot g = _base_steps_per_rot g0 /\
  _gear_ratio g = _gear_ratio g0.

(** A state of the program: the two objects are the ones [main.cpp]
    constructs (their [const] members never change). *)
Definition constructed (w : World A) : Prop :=
  same_wiring (turntableStepper w) (turntableStepper boot) /\
  same_wiring (tiltStepper w) (tiltStepper boot).

(** The lines driven during a transition from [w] to [w']. *)
Definition driven (w w' : World A) (evs : gpio) : Prop :=
  pins w' = evs ++ pins w.

(** A write to one of the select lines of [g]. *)
Definition select_line_write (g : GearedStepper A) (ev : gpio_event) : Prop :=
  exists v, ev = DigitalWrite (_ms1_pin g) v
            \/ ev = DigitalWrite (_ms2_pin g) v
            \/ ev = DigitalWrite (_ms3_pin g) v.

(** [setMicrostepResolution] called once per element of [rs], in order. *)
Fixpoint setMicrostepResolution_seq (rs : list Z) (g : GearedStepper A) (io : gpio)
    : GearedStepper A * gpio :=
  match rs with
  | [] => (g, io)
  | r :: rs' =>
      let '(g', io') := setMicrostepResolution r g io in
      setMicrostepResolution_seq rs' g' io'
  end.

(** The conversion formula in the words of the specification, evaluated
    left to right in binary32:
    [round(degrees / 360 * outputStepsPerRotation * microstepResolution)]. *)
Definition degreesToPulses_spec (g : GearedStepper A) (degrees : float32) : Z :=
  lroundf (mul (mul (div degrees (of_Z 360)) (of_Z (getOutputStepsPerRotation g)))
               (of_Z (getMicrostepResolution g))).

(** The levels read back on the three select lines of [g]. *)
Definition select_levels (g : GearedStepper A) (io : gpio)
    : option level * option level * option level :=
  (pin_level (_ms1_pin g) io, pin_level (_ms2_pin g) io, pin_level (_ms3_pin g) io).

(** The three select lines of [g] are three different pins. *)
Definition select_pins_distinct (g : GearedStepper A) : Prop :=
  _ms1_pin g <> _ms2_pin g /\ _ms1_pin g <> _ms3_pin g /\ _ms2_pin g <> _ms3_pin g.

(** What the dispatcher keeps true of the program state: the constructed
    objects, one microstep setting for both axes, direction signs of
    magnitude one. *)
Definition consistent (w : World A) : Prop :=
  constructed w
  /\ getMicrostepResolution (turntableStepper w) = getMicrostepResolution (tiltStepper w)
  /\ (rot_dir w = 1 \/ rot_dir w = -1)
  /\ (til_dir w = 1 \/ til_dir w = -1).

(** The select lines carry the pattern of some listed setting, and that
    of the stored setting whenever the stored one is listed. *)
Definition lines_agree (w : World A) : Prop :=
  (exists n, valid_microstep n
             /\ select_levels (turntableStepper w) (pins w)
                = (let '(v1, v2, v3) := select_pattern n in (Some v1, Some v2, Some v3)))
  /\ (valid_microstep (getMicrostepResolution (turntableStepper w)) ->
      select_levels (turntableStepper w) (pins w)
      = (let '(v1, v2, v3) := select_pattern (getMicrostepResolution (turntableStepper w)) in
         (Some v1, Some v2, Some v3))).

(** Successive calls of [loop], one per element of [inputs]. *)
Fixpoint loops (fuel : nat) (inputs : list (option string)) (w : World A)
    : option (World A) :=
  match inputs with
  | [] => Some w
  | available :: rest =>
      match loop fuel available w with
      | Some w' => loops fuel rest w'
      | None => None
      end
  end.

(** The quantity the formula of the specification rounds, on the exact
    values: [degrees / 360 * outputStepsPerRotation * microstepResolution]
    as a rational number. *)
Definition degreesToPulses_real (g : GearedStepper A) (degrees : float32) : option Q :=
  option_map
    (fun d => (d / 360 * inject_Z (getOutputStepsPerRotation g)
               * inject_Z (getMicrostepResolution g))%Q)
    (value degrees).

(** The same formula on the exact values, without intermediate rounding. *)
Definition degreesToPulses_exact (g : GearedStepper A) (degrees : float32) : option Z :=
  option_map
    (fun d => Qround_half_away
                (d / 360 * inject_Z (getOutputStepsPerRotation g)
                 * inject_Z (getMicrostepResolution g))%Q)
    (value degrees).

End Vocabulary.

(** * Properties *)

(** ** Strings *)

Lemma trim_right_head (c : ascii) (s : string) :
  isspace c = false -> exists t, trim_right (String c s) = String c t.
Proof.
  intros Hc. simpl. destruct (trim_right s) as [|a t].
  - rewrite Hc. now exists EmptyString.
  - now exists (String a t).
Qed.

Lemma first_nonspace_trim_left (s : string) (c : ascii) :
  first_nonspace s = Some c ->
  isspace c = false /\ exists t, trim_left s = String c t.
Proof.
  induction s as [|a s IH]; simpl; [discriminate|].
  destruct (isspace a) eqn:Ha; [exact IH|].
  intros [= <-]. split; [exact Ha|]. now exists s.
Qed.

(** After [trim], the line starts with its first non-whitespace character. *)
Lemma first_nonspace_trim (s : string) (c : ascii) :
  first_nonspace s = Some c -> exists t, trim s = String c t.
Proof.
  intros Hs. destruct (first_nonspace_trim_left s c Hs) as [Hc [t Ht]].
  unfold trim. rewrite Ht. now apply trim_right_head.
Qed.

Lemma first_nonspace_none (s : string) :
  first_nonspace s = None -> trim s = EmptyString.
Proof.
  unfold trim. induction s as [|a s IH]; simpl; [reflexivity|].
  destruct (isspace a); [exact IH | discriminate].
Qed.

(** ** Binary32 arithmetic *)

Module F32Facts.

Lemma fexp_eq (e : Z) : fexp prec emax e = Z.max (e - 24) emin.
Proof. reflexivity. Qed.

Lemma digits_size (p : positive) : digits2_pos p = Pos.size p.
Proof. induction p; simpl; congruence. Qed.

Lemma digits_log2 (p : positive) : digits p = Z.log2 (Zpos p) + 1.
Proof.
  unfold digits. rewrite digits_size. destruct p; simpl; lia.
Qed.

Lemma digits_pos (p : positive) : 0 < digits p.
Proof. unfold digits. lia. Qed.

Lemma digits_bounds (p : positive) :
  2 ^ (digits p - 1) <= Zpos p < 2 ^ digits p.
Proof.
  rewrite digits_log2. replace (Z.log2 (Zpos p) + 1 - 1) with (Z.log2 (Zpos p)) by lia.
  replace (Z.log2 (Z.pos p) + 1) with (Z.succ (Z.log2 (Zpos p))) by lia.
  apply Z.log2_spec. lia.
Qed.

Lemma digits_unique (p : positive) (d : Z) :
  2 ^ (d - 1) <= Zpos p < 2 ^ d -> digits p = d.
Proof.
  intros Hb. rewrite digits_log2.
  assert (0 < d).
  { destruct (Z.lt_trichotomy d 0) as [Hd|[Hd|Hd]]; [|subst; simpl in Hb; lia|lia].
    rewrite (Z.pow_neg_r 2 d) in Hb by lia. lia. }
  rewrite (Z.log2_unique (Zpos p) (d - 1)); [lia|lia|].
  replace (Z.succ (d - 1)) with d by lia. exact Hb.
Qed.

(** Scaling by a power of two adds to the digit count. *)
Lemma digits_scaled (x y : positive) (a : Z) :
  0 <= a -> Zpos x = Zpos y * 2 ^ a -> digits x = digits y + a.
Proof.
  intros Ha Hx. apply digits_unique. rewrite Hx.
  pose proof (digits_bounds y) as [Hl Hu].
  pose proof (digits_pos y).
  replace (digits y + a - 1) with (digits y - 1 + a) by lia.
  rewrite !Z.pow_add_r by lia.
  assert (0 < 2 ^ a) by (apply Z.pow_pos_nonneg; lia).
  split; nia.
Qed.

Lemma digits_mono (x y : positive) : Zpos x <= Zpos y -> digits x <= digits y.
Proof.
  intros Hxy. rewrite !digits_log2.
  pose proof (Z.log2_le_mono (Zpos x) (Zpos y) Hxy). lia.
Qed.

Lemma digits_le (x : positive) (d : Z) : 0 <= d -> Zpos x < 2 ^ d -> digits x <= d.
Proof.
  intros Hd Hx. pose proof (digits_bounds x) as [Hl _].
  destruct (Z.le_gt_cases (digits x) d) as [|Hgt]; [assumption|].
  assert (2 ^ d <= 2 ^ (digits x - 1)) by (apply Z.pow_le_mono_r; lia). lia.
Qed.

(** *** Shifting right *)

Lemma iter_pos_nat {T : Type} (f : T -> T) (p : positive) (x : T) :
  iter_pos f p x = Nat.iter (Pos.to_nat p) f x.
Proof.
  revert x. induction p as [p IH|p IH|]; intros x; cbn [iter_pos].
  - rewrite !IH, Pos2Nat.inj_xI, <- Nat.iter_add, <- Nat.iter_succ_r.
    f_equal. lia.
  - rewrite !IH, Pos2Nat.inj_xO, <- Nat.iter_add. f_equal. lia.
  - reflexivity.
Qed.

Lemma shr_nat (mrs : shr_record) (e n : Z) :
  0 <= n -> shr mrs e n = (Nat.iter (Z.to_nat n) shr_1 mrs, e + n).
Proof.
  intros Hn. destruct n as [|p|p]; [|simpl|lia].
  - simpl. now rewrite Z.add_0_r.
  - now rewrite iter_pos_nat.
Qed.

Lemma shr_none (mrs : shr_record) (e n : Z) : n <= 0 -> shr mrs e n = (mrs, e).
Proof. intros Hn. destruct n as [|p|p]; [reflexivity|lia|reflexivity]. Qed.

Lemma shr_1_m (mrs : shr_record) :
  0 <= shr_m mrs -> shr_m (shr_1 mrs) = shr_m mrs / 2.
Proof.
  destruct mrs as [m r s]. simpl. intros Hm.
  destruct m as [|[p|p|]|p]; cbn [shr_m]; try lia; try reflexivity.
  - apply Z.div_unique with 1; lia.
  - apply Z.div_unique with 0; lia.
Qed.

Lemma shr_iter_m (n : nat) (mrs : shr_record) :
  0 <= shr_m mrs ->
  shr_m (Nat.iter n shr_1 mrs) = shr_m mrs / 2 ^ Z.of_nat n.
Proof.
  intros Hm. induction n as [|n IH].
  - simpl. now rewrite Z.div_1_r.
  - assert (0 < 2 ^ Z.of_nat n) by (apply Z.pow_pos_nonneg; lia).
    rewrite Nat2Z.inj_succ, Z.pow_succ_r, Nat.iter_succ by lia.
    rewrite shr_1_m, IH.
    + rewrite Z.div_div by lia. f_equal. lia.
    + rewrite IH. apply Z.div_pos; lia.
Qed.

Lemma shr_1_even (z : Z) :
  0 <= z ->
  shr_1 (Build_shr_record (2 * z) false false) = Build_shr_record z false false.
Proof. intros Hz. destruct z as [|p|p]; [reflexivity|reflexivity|lia]. Qed.

(** Shifting out zeros only is exact. *)
Lemma shr_iter_exact (n : nat) (y : Z) :
  0 <= y ->
  Nat.iter n shr_1 (Build_shr_record (y * 2 ^ Z.of_nat n) false false)
  = Build_shr_record y false false.
Proof.
  intros Hy. induction n as [|n IH].
  - simpl. f_equal. lia.
  - assert (0 < 2 ^ Z.of_nat n) by (apply Z.pow_pos_nonneg; lia).
    rewrite Nat.iter_succ_r.
    replace (y * 2 ^ Z.of_nat (S n)) with (2 * (y * 2 ^ Z.of_nat n))
      by (rewrite Nat2Z.inj_succ, Z.pow_succ_r; lia).
    rewrite shr_1_even by nia. exact IH.
Qed.

(** *** Rounding *)

Lemma pow2_pos (a : Z) : 0 <= a -> 0 < 2 ^ a.
Proof. intros Ha. apply Z.pow_pos_nonneg; lia. Qed.

Lemma pow2_split (a b : Z) : 0 <= b <= a -> 2 ^ a = 2 ^ (a - b) * 2 ^ b.
Proof. intros Hab. rewrite <- Z.pow_add_r by lia. f_equal. lia. Qed.

Lemma round_nearest_even_bounds (m : Z) (l : location) :
  m <= round_nearest_even m l <= m + 1.
Proof. destruct l as [|[]]; simpl; try destruct (Z.even m); lia. Qed.

(** When the bits to drop are all zero, the shift is exact. *)
Lemma shr_fexp_exact (x y : positive) (a E t : Z) :
  0 <= a -> Zpos x = Zpos y * 2 ^ a ->
  t = Z.max (digits y + a + E - 24) emin ->
  E <= t <= E + a ->
  shr_fexp prec emax (Zpos x) E loc_Exact
  = (Build_shr_record (Zpos y * 2 ^ (E + a - t)) false false, t).
Proof.
  intros Ha Hx Ht Hrange.
  unfold shr_fexp. cbn [Zdigits2 shr_record_of_loc].
  fold (digits x). rewrite (digits_scaled x y a Ha Hx), fexp_eq, <- Ht.
  rewrite shr_nat by lia. f_equal; [|lia].
  rewrite Hx, (pow2_split a (t - E)) by lia.
  replace (a - (t - E)) with (E + a - t) by lia.
  rewrite Z.mul_assoc.
  replace (2 ^ (t - E)) with (2 ^ Z.of_nat (Z.to_nat (t - E)))
    by (now rewrite Z2Nat.id by lia).
  apply shr_iter_exact.
  assert (0 < 2 ^ (E + a - t)) by (apply pow2_pos; lia). lia.
Qed.

Lemma bra_exact (s : bool) (x y : positive) (a E t : Z) :
  0 <= a -> Zpos x = Zpos y * 2 ^ a ->
  t = Z.max (digits y + a + E - 24) emin ->
  E <= t <= E + a ->
  exists m, Zpos m = Zpos y * 2 ^ (E + a - t) /\ bra s (Zpos x) E = cond_fin s m t.
Proof.
  intros Ha Hx Ht Hrange.
  assert (Hp : 0 < 2 ^ (E + a - t)) by (apply pow2_pos; lia).
  destruct (Zpos y * 2 ^ (E + a - t)) as [|m|m] eqn:Em; try lia.
  exists m. split; [reflexivity|].
  unfold bra, binary_round_aux.
  rewrite (shr_fexp_exact x y a E t Ha Hx Ht Hrange), Em.
  cbn [shr_m loc_of_shr_record round_nearest_even].
  rewrite (shr_fexp_exact m m 0 t t); [| lia | lia | | lia].
  - replace (t + 0 - t) with 0 by lia. rewrite Z.pow_0_r, Z.mul_1_r.
    cbn [shr_m]. reflexivity.
  - rewrite (digits_scaled m y (E + a - t)) by (lia || (symmetry; exact Em)). lia.
Qed.

(** The exponent of a rounded result is never below [emin]. *)
Lemma shr_fexp_exponent (m e : Z) (l : location) :
  emin <= snd (shr_fexp prec emax m e l).
Proof.
  unfold shr_fexp, shr. rewrite fexp_eq.
  destruct (Z.max (Zdigits2 m + e - 24) emin - e) eqn:En; cbn [snd]; lia.
Qed.

Lemma round_aux_exponent (s : bool) (m e : Z) (l : location) (s' : bool) (m' : positive) (e' : Z) :
  binary_round_aux prec emax s m e l = S754_finite s' m' e' -> emin <= e'.
Proof.
  unfold binary_round_aux.
  destruct (shr_fexp prec emax m e l) as [mrs1 e1].
  pose proof (shr_fexp_exponent
                (round_nearest_even (shr_m mrs1) (loc_of_shr_record mrs1)) e1 loc_Exact) as He.
  destruct (shr_fexp prec emax _ e1 loc_Exact) as [mrs2 e2]. cbn [snd] in He.
  destruct (shr_m mrs2); try discriminate.
  destruct (e2 <=? emax - prec); try discriminate.
  intros [= _ _ <-]. exact He.
Qed.

(** In the normal range the mantissa of the result depends on the operand
    mantissa only; the exponent just follows. *)
Lemma bra_normal (s : bool) (x : positive) :
  24 <= digits x ->
  exists (m : positive) (dl : Z),
    digits m = 24 /\ (dl = 0 \/ dl = 1) /\
    forall E, emin <= digits x + E - 24 ->
              bra s (Zpos x) E = cond_fin s m (digits x + E - 24 + dl).
Proof.
  intros Hd.
  set (n1 := digits x - 24).
  set (mrs1 := Nat.iter (Z.to_nat n1) shr_1 (Build_shr_record (Zpos x) false false)).
  assert (Hm' : shr_m mrs1 = Zpos x / 2 ^ n1).
  { unfold mrs1. rewrite shr_iter_m by (cbn; lia). cbn [shr_m].
    rewrite Z2Nat.id by (unfold n1; lia). reflexivity. }
  assert (Hb : 2 ^ 23 <= shr_m mrs1 < 2 ^ 24).
  { rewrite Hm'. pose proof (digits_bounds x) as [Hl Hu].
    assert (Hn : 0 < 2 ^ n1) by (apply pow2_pos; unfold n1; lia).
    rewrite (pow2_split (digits x - 1) n1) in Hl by (unfold n1; lia).
    rewrite (pow2_split (digits x) n1) in Hu by (unfold n1; lia).
    replace (digits x - 1 - n1) with 23 in Hl by (unfold n1; lia).
    replace (digits x - n1) with 24 in Hu by (unfold n1; lia).
    split.
    - apply Z.div_le_lower_bound; lia.
    - apply Z.div_lt_upper_bound; lia. }
  pose proof (round_nearest_even_bounds (shr_m mrs1) (loc_of_shr_record mrs1)) as Hr.
  set (m1 := round_nearest_even (shr_m mrs1) (loc_of_shr_record mrs1)) in *.
  assert (Hfirst : forall E, emin <= digits x + E - 24 ->
            shr_fexp prec emax (Zpos x) E loc_Exact = (mrs1, E + n1)).
  { intros E HE. unfold shr_fexp. cbn [Zdigits2 shr_record_of_loc]. fold (digits x).
    rewrite fexp_eq, Z.max_l by lia.
    replace (digits x + E - 24 - E) with n1 by (unfold n1; lia).
    apply shr_nat. unfold n1; lia. }
  destruct (Z.eq_dec m1 16777216) as [Htop|Hnot].
  - exists 8388608%positive, 1. split; [reflexivity|]. split; [now right|].
    intros E HE. unfold bra, binary_round_aux. rewrite (Hfirst E HE). fold m1. rewrite Htop.
    rewrite (shr_fexp_exact 16777216 8388608 1 (E + n1) (E + n1 + 1));
      [ | lia | reflexivity | | lia ].
    + replace (E + n1 + 1 - (E + n1 + 1)) with 0 by lia.
      cbn [Z.pow Z.pow_pos Pos.iter Z.mul Pos.mul shr_m].
      replace (digits x + E - 24 + 1) with (E + n1 + 1) by (unfold n1; lia).
      reflexivity.
    + change (digits 8388608) with 24. unfold n1. lia.
  - destruct m1 as [|p1|p1] eqn:Ep; try lia.
    assert (Hd1 : digits p1 = 24) by (apply digits_unique; lia).
    exists p1, 0. split; [exact Hd1|]. split; [now left|].
    intros E HE. unfold bra, binary_round_aux. rewrite (Hfirst E HE). fold m1. rewrite Ep.
    rewrite (shr_fexp_exact p1 p1 0 (E + n1) (E + n1)); [ | lia | lia | | lia ].
    + replace (E + n1 + 0 - (E + n1)) with 0 by lia.
      rewrite Z.pow_0_r, Z.mul_1_r. cbn [shr_m].
      replace (digits x + E - 24 + 0) with (E + n1) by (unfold n1; lia).
      reflexivity.
    + rewrite Hd1. unfold n1. lia.
Qed.

(** *** Products with an integer-valued operand *)

Lemma Zpos_inj (p q : positive) : Zpos p = Zpos q -> p = q.
Proof. intros [= ->]. reflexivity. Qed.

Lemma cond_fin_finite (s : bool) (m : positive) (e : Z) :
  e <= 104 -> cond_fin s m e = S754_finite s m e.
Proof. intros He. unfold cond_fin. apply Z.leb_le in He. now rewrite He. Qed.

(** Multiplying a rounded result by [2^k] only moves the exponent. *)
Lemma mul_pow2_float (s : bool) (m : positive) (e k : Z) :
  digits m = 24 -> emin <= e -> 0 <= k <= 23 ->
  mul (cond_fin s m e) (pow2_float k) = cond_fin s m (e + k).
Proof.
  intros Hd He Hk. unfold cond_fin at 1.
  destruct (Z.leb_spec e 104) as [Hle|Hgt].
  - unfold mul, pow2_float. cbn [SFmul]. fold (bra (xorb s false) (Zpos (m * 8388608)) (e + (k - 23))).
    destruct (bra_exact (xorb s false) (m * 8388608) m 23 (e + (k - 23)) (e + k))
      as (m2 & Hm2 & ->); [lia | rewrite Pos2Z.inj_mul; reflexivity | rewrite Hd; unfold emin in *; lia | lia |].
    replace (e + (k - 23) + 23 - (e + k)) with 0 in Hm2 by lia.
    rewrite Z.pow_0_r, Z.mul_1_r in Hm2. apply Zpos_inj in Hm2. subst m2.
    now rewrite xorb_false_r.
  - unfold mul, pow2_float. cbn [SFmul]. rewrite xorb_false_r.
    unfold cond_fin. destruct (Z.leb_spec (e + k) 104); [lia | reflexivity].
Qed.

Lemma mul_int_cases (sq so : bool) (mq mo : positive) (eq eo : Z) :
  emin <= eq -> int_float mo eo ->
  exists (m : positive) (e : Z),
    digits m <= 24 /\ emin <= e /\
    mul (S754_finite sq mq eq) (S754_finite so mo eo) = cond_fin (xorb sq so) m e /\
    forall k, 0 <= k <= 23 ->
      mul (cond_fin (xorb sq so) m e) (pow2_float k)
      = mul (S754_finite sq mq eq) (S754_finite so mo (eo + k)).
Proof.
  intros Heq [Hdo Hint].
  set (s := xorb sq so).
  assert (Hmul : forall e', mul (S754_finite sq mq eq) (S754_finite so mo e')
                            = bra s (Zpos (mq * mo)) (eq + e')) by reflexivity.
  assert (Hd : 24 <= digits (mq * mo)).
  { rewrite <- Hdo. apply digits_mono. rewrite Pos2Z.inj_mul. nia. }
  destruct (Z.le_gt_cases emin (digits (mq * mo) + (eq + eo) - 24)) as [Hnorm|Hsub].
  - (* normal range *)
    destruct (bra_normal s (mq * mo) Hd) as (m & dl & Hdm & Hdl & Hall).
    exists m, (digits (mq * mo) + (eq + eo) - 24 + dl).
    split; [lia|]. split; [lia|]. split.
    + rewrite Hmul. apply Hall. exact Hnorm.
    + intros k Hk. rewrite mul_pow2_float by lia.
      rewrite Hmul, Hall by lia. f_equal. lia.
  - (* the result is subnormal: the integer operand makes it exact *)
    assert (Heo : eo < 0) by lia.
    destruct (Hint Heo) as [y Hy].
    assert (Hx : Zpos (mq * mo) = Zpos (mq * y) * 2 ^ (- eo)).
    { rewrite !Pos2Z.inj_mul, Hy. ring. }
    assert (Hdx : digits (mq * mo) = digits (mq * y) + - eo)
      by (apply digits_scaled; [lia | exact Hx]).
    destruct (bra_exact s (mq * mo) (mq * y) (- eo) (eq + eo) emin)
      as (m1 & Hm1 & Hb1); [lia | exact Hx | lia | lia |].
    replace (eq + eo + - eo - emin) with (eq - emin) in Hm1 by lia.
    assert (Hdm1 : digits m1 = digits (mq * y) + (eq - emin))
      by (apply digits_scaled; [lia | exact Hm1]).
    exists m1, emin. split; [lia|]. split; [lia|]. split.
    + rewrite Hmul. exact Hb1.
    + intros k Hk. rewrite cond_fin_finite by (unfold emin; lia).
      unfold mul at 1, pow2_float. cbn [SFmul].
      fold (bra (xorb s false) (Zpos (m1 * 8388608)) (emin + (k - 23))).
      rewrite xorb_false_r, Hmul.
      set (t := Z.max (digits (mq * y) + eq + k - 24) emin).
      destruct (bra_exact s (m1 * 8388608) (mq * y) (eq - emin + 23) (emin + (k - 23)) t)
        as (m2 & Hm2 & ->); [lia | | unfold t; f_equal; lia | unfold t; lia |].
      { rewrite Pos2Z.inj_mul, Hm1, Z.pow_add_r by lia. change (2 ^ 23) with 8388608. ring. }
      destruct (bra_exact s (mq * mo) (mq * y) (- eo) (eq + (eo + k)) t)
        as (m3 & Hm3 & ->); [lia | exact Hx | unfold t; f_equal; lia | unfold t; lia |].
      replace (emin + (k - 23) + (eq - emin + 23) - t) with (eq + k - t) in Hm2 by lia.
      replace (eq + (eo + k) + - eo - t) with (eq + k - t) in Hm3 by lia.
      rewrite <- Hm3 in Hm2. apply Zpos_inj in Hm2. now subst m3.
Qed.

(** *** Conversion of integers *)

Lemma iter_xO_pow2 (m d : positive) : Zpos (Pos.iter xO m d) = Zpos m * 2 ^ Zpos d.
Proof.
  induction d as [|d IH] using Pos.peano_ind.
  - cbn [Pos.iter]. rewrite Pos2Z.inj_xO. change (2 ^ 1) with 2. ring.
  - rewrite Pos.iter_succ, Pos2Z.inj_succ, Z.pow_succ_r, Pos2Z.inj_xO, IH by lia. ring.
Qed.

Lemma shl_align_spec (mx : positive) (ex ex' : Z) :
  let '(mz, ez) := shl_align mx ex ex' in
  ez = Z.min ex ex' /\ Zpos mz = Zpos mx * 2 ^ (ex - ez).
Proof.
  unfold shl_align. destruct (ex' - ex) as [|d|d] eqn:Ed.
  - split; [lia|]. rewrite Z.sub_diag. simpl. lia.
  - split; [lia|]. rewrite Z.sub_diag. simpl. lia.
  - split; [lia|]. rewrite iter_xO_pow2. do 2 f_equal. lia.
Qed.

(** An integer with at most 24 significant bits converts exactly. *)
Lemma binary_round_exact (s : bool) (p y : positive) (a : Z) :
  0 <= a -> Zpos p = Zpos y * 2 ^ a -> digits y <= 24 -> digits y + a <= 128 ->
  exists m, Zpos m = Zpos y * 2 ^ (24 - digits y)
            /\ int_float m (digits y + a - 24)
            /\ binary_round prec emax s p 0 = S754_finite s m (digits y + a - 24).
Proof.
  intros Ha Hp Hdy Hbound.
  pose proof (digits_pos y) as Hpos.
  assert (Hdp : digits p = digits y + a) by (apply digits_scaled; assumption).
  unfold binary_round.
  pose proof (shl_align_spec p 0 (fexp prec emax (Zpos (digits2_pos p) + 0))) as Hal.
  destruct (shl_align p 0 _) as [mz ez]. destruct Hal as [Hez Hmz].
  fold (digits p) in Hez. rewrite fexp_eq, Z.add_0_r, Hdp in Hez.
  rewrite Z.max_l in Hez by (unfold emin; lia).
  fold (bra s (Zpos mz) ez).
  destruct (bra_exact s mz y (a - ez) ez (digits y + a - 24)) as (m & Hm & ->).
  - lia.
  - rewrite Hmz, Hp, <- Z.mul_assoc, <- Z.pow_add_r by lia. f_equal.
  - unfold emin. lia.
  - lia.
  - replace (ez + (a - ez) - (digits y + a - 24)) with (24 - digits y) in Hm by lia.
    exists m. split; [exact Hm|]. split.
    + split.
      * rewrite (digits_scaled m y (24 - digits y)) by (lia || exact Hm). lia.
      * intros Hneg. exists p. rewrite Hm, Hp, <- Z.mul_assoc, <- Z.pow_add_r by lia.
        do 2 f_equal. lia.
    + apply cond_fin_finite. lia.
Qed.

(** Trailing zeros of the mantissa can be moved into the exponent. *)
Lemma bra_shift (s : bool) (p p' : positive) (k E : Z) :
  0 <= k -> Zpos p' = Zpos p * 2 ^ k -> 24 <= digits p ->
  emin <= digits p + k + E - 24 ->
  bra s (Zpos p') E = bra s (Zpos p) (E + k).
Proof.
  intros Hk Hp' Hd Hrange.
  assert (Hdp' : digits p' = digits p + k) by (apply digits_scaled; assumption).
  assert (Hs : shr_fexp prec emax (Zpos p') E loc_Exact
               = shr_fexp prec emax (Zpos p) (E + k) loc_Exact).
  { unfold shr_fexp. cbn [Zdigits2 shr_record_of_loc]. fold (digits p') (digits p).
    rewrite !fexp_eq, Hdp', !Z.max_l by lia.
    rewrite !shr_nat by lia. f_equal; [|lia].
    replace (Z.to_nat (digits p + k + E - 24 - E))
      with (Z.to_nat (digits p + (E + k) - 24 - (E + k)) + Z.to_nat k)%nat by lia.
    rewrite Nat.iter_add. f_equal.
    rewrite Hp'. replace (2 ^ k) with (2 ^ Z.of_nat (Z.to_nat k)) by (now rewrite Z2Nat.id by lia).
    apply shr_iter_exact. lia. }
  unfold bra, binary_round_aux. rewrite Hs. reflexivity.
Qed.

Lemma binary_round_scaled (s : bool) (p p' : positive) (k : Z) :
  0 <= k -> Zpos p' = Zpos p * 2 ^ k -> Zpos p' < 2 ^ 64 ->
  exists mo eo,
    int_float mo eo
    /\ binary_round prec emax s p 0 = S754_finite s mo eo
    /\ binary_round prec emax s p' 0 = S754_finite s mo (eo + k).
Proof.
  intros Hk Hp' Hbound.
  assert (Hdp' : digits p' = digits p + k) by (apply digits_scaled; assumption).
  assert (Hd64 : digits p' <= 64) by (apply digits_le; lia).
  pose proof (digits_pos p) as Hpos.
  destruct (Z.le_gt_cases (digits p) 24) as [Hsmall|Hbig].
  - destruct (binary_round_exact s p p 0) as (m & Hm & Hint & Hr);
      [lia | rewrite Z.pow_0_r; lia | lia | lia |].
    destruct (binary_round_exact s p' p k) as (m' & Hm' & _ & Hr');
      [lia | exact Hp' | lia | lia |].
    rewrite <- Hm in Hm'. apply Zpos_inj in Hm'. subst m'.
    exists m, (digits p + 0 - 24). split; [exact Hint|]. split; [exact Hr|].
    rewrite Hr'. f_equal. lia.
  - destruct (bra_normal s p) as (m & dl & Hdm & Hdl & Hall); [lia|].
    assert (Hr : forall q : positive, 24 < digits q ->
                 binary_round prec emax s q 0 = bra s (Zpos q) 0).
    { intros q Hq. unfold binary_round.
      pose proof (shl_align_spec q 0 (fexp prec emax (Zpos (digits2_pos q) + 0))) as Hal.
      destruct (shl_align q 0 _) as [mz ez]. destruct Hal as [Hez Hmz].
      fold (digits q) in Hez. rewrite fexp_eq in Hez.
      assert (Hz : ez = 0) by lia. rewrite Hz in *.
      change (2 ^ (0 - 0)) with 1 in Hmz. rewrite Z.mul_1_r in Hmz.
      apply Zpos_inj in Hmz. now subst mz. }
    exists m, (digits p + 0 - 24 + dl). split; [|split].
    + split; [exact Hdm | lia].
    + rewrite Hr, Hall by (unfold emin; lia). apply cond_fin_finite. lia.
    + rewrite Hr by lia.
      rewrite (bra_shift s p p' k 0) by (unfold emin; lia || assumption).
      rewrite Hall by (unfold emin; lia).
      rewrite cond_fin_finite by lia. f_equal. lia.
Qed.

Lemma of_Z_scaled (o k : Z) :
  o <> 0 -> 0 <= k -> Z.abs o * 2 ^ k < 2 ^ 64 ->
  exists mo eo,
    int_float mo eo
    /\ of_Z o = S754_finite (sign_of o) mo eo
    /\ of_Z (o * 2 ^ k) = S754_finite (sign_of o) mo (eo + k).
Proof.
  intros Ho Hk Hbound.
  assert (H2k : 0 < 2 ^ k) by (apply pow2_pos; lia).
  unfold of_Z, binary_normalize, sign_of.
  destruct o as [|p|p]; [contradiction| |].
  - destruct (Zpos p * 2 ^ k) as [|p'|p'] eqn:Ep'; try lia.
    apply (binary_round_scaled false p p' k); lia.
  - destruct (Zneg p * 2 ^ k) as [|p'|p'] eqn:Ep'; try lia.
    apply (binary_round_scaled true p p' k); lia.
Qed.

(** *** The two products of the conversion formula *)

Lemma div_exp_ok (x y : float32) : exp_ok (div x y).
Proof.
  unfold div, SFdiv.
  destruct x as [sx|sx| |sx mx ex], y as [sy|sy| |sy my ey]; try exact I.
  destruct (SFdiv_core_binary prec emax (Zpos mx) ex (Zpos my) ey) as [[mz ez] lz].
  destruct (binary_round_aux prec emax (xorb sx sy) mz ez lz) as [s|s| |s m e] eqn:Er;
    try exact I.
  exact (round_aux_exponent _ _ _ _ _ _ _ Er).
Qed.

Lemma valid_exp_ok (x : float32) : valid x = true -> exp_ok x.
Proof.
  destruct x as [s|s| |s m e]; try (intros; exact I).
  unfold valid, valid_binary, bounded, canonical_mantissa. intros Hv.
  apply andb_prop in Hv. destruct Hv as [Hc _]. apply Z.eqb_eq in Hc.
  rewrite fexp_eq in Hc. cbn [exp_ok]. lia.
Qed.

(** [q * o * 2^k], rounded after each product, is [q * (o * 2^k)] rounded
    once: with an integer [o], scaling by a power of two is exact. *)
Lemma mul_scaled_operand (q : float32) (o k : Z) :
  exp_ok q -> 0 <= k <= 23 -> Z.abs o * 2 ^ k < 2 ^ 64 ->
  mul (mul q (of_Z o)) (pow2_float k) = mul q (of_Z (o * 2 ^ k)).
Proof.
  intros Hq Hk Hbound.
  destruct (Z.eq_dec o 0) as [->|Ho].
  - cbn [Z.mul of_Z binary_normalize].
    destruct q as [sq|sq| |sq mq eq]; cbn; rewrite ?xorb_false_r; reflexivity.
  - destruct (of_Z_scaled o k Ho) as (mo & eo & Hint & -> & ->); [lia | exact Hbound |].
    destruct q as [sq|sq| |sq mq eq]; try (cbn; rewrite ?xorb_false_r; reflexivity).
    destruct (mul_int_cases sq (sign_of o) mq mo eq eo Hq Hint) as (m & e & _ & _ & -> & Hall).
    apply Hall. exact Hk.
Qed.

Lemma valid_microstep_pow2 (res : Z) :
  valid_microstep res ->
  exists k, 0 <= k <= 4 /\ res = 2 ^ k /\ of_Z res = pow2_float k.
Proof.
  intros [-> | [-> | [-> | [-> | ->]]]];
    [exists 0 | exists 1 | exists 2 | exists 3 | exists 4];
    (split; [lia|]); split; reflexivity.
Qed.

(** *** Integers that binary32 holds exactly *)

Lemma sig24_scaled (z k : Z) : 0 <= k -> sig24 z -> sig24 (z * 2 ^ k).
Proof.
  intros Hk [-> | (y & a & Ha & Hz & Hy)]; [now left|]. right.
  exists y, (a + k). split; [lia|]. split; [|exact Hy].
  assert (0 < 2 ^ k) by (apply pow2_pos; lia).
  rewrite Z.abs_mul, Hz, (Z.abs_eq (2 ^ k)), Z.pow_add_r by lia. ring.
Qed.

Lemma sig24_opp (z : Z) : sig24 z -> sig24 (- z).
Proof.
  intros [-> | (y & a & Ha & Hz & Hy)]; [now left|]. right.
  exists y, a. rewrite Z.abs_opp. auto.
Qed.

Lemma round_half_away_nonneg (m : positive) (e : Z) : 0 <= round_half_away m e.
Proof.
  unfold round_half_away. destruct (Z.leb_spec 0 e) as [He|He].
  - assert (0 < 2 ^ e) by (apply pow2_pos; lia). lia.
  - assert (0 < 2 ^ (- e - 1)) by (apply pow2_pos; lia).
    apply Z.div_pos; [lia | apply pow2_pos; lia].
Qed.

Lemma round_half_away_sig24 (m : positive) (e : Z) :
  digits m <= 24 -> sig24 (round_half_away m e).
Proof.
  intros Hd. unfold round_half_away.
  destruct (Z.leb_spec 0 e) as [He|He].
  - right. exists m, e. split; [exact He|]. split; [|exact Hd].
    assert (0 < 2 ^ e) by (apply pow2_pos; lia). apply Z.abs_eq. lia.
  - pose proof (digits_bounds m) as [_ Hu].
    assert (Hm : Zpos m < 2 ^ 24).
    { eapply Z.lt_le_trans; [exact Hu|]. apply Z.pow_le_mono_r; lia. }
    assert (HP : 0 < 2 ^ (- e - 1)) by (apply pow2_pos; lia).
    assert (H2 : 2 ^ (- e) = 2 * 2 ^ (- e - 1)).
    { rewrite <- Z.pow_succ_r by lia. f_equal. lia. }
    set (r := (Zpos m + 2 ^ (- e - 1)) / 2 ^ (- e)).
    assert (Hr0 : 0 <= r) by (apply Z.div_pos; lia).
    assert (Hr1 : r < 2 ^ 23 + 1).
    { apply Z.div_lt_upper_bound; [lia|]. rewrite H2. change (2 ^ 23) with 8388608.
      change (2 ^ 24) with 16777216 in Hm. nia. }
    destruct r as [|p|p] eqn:Er; [now left| |lia].
    right. exists p, 0. split; [lia|]. split; [simpl; lia|].
    apply digits_le; [lia|]. change (2 ^ 23) with 8388608 in Hr1. change (2 ^ 24) with 16777216. lia.
Qed.

Lemma mul_comm (x y : float32) : mul x y = mul y x.
Proof.
  unfold mul, SFmul.
  destruct x as [sx|sx| |sx mx ex], y as [sy|sy| |sy my ey];
    rewrite ?(xorb_comm sx sy); try reflexivity.
  now rewrite Pos.mul_comm, Z.add_comm.
Qed.

(** The product of a converted integer and a valid number has at most 24
    significant bits. *)
Lemma mul_of_Z_digits (n : Z) (q : float32) (s : bool) (m : positive) (e : Z) :
  Z.abs n < 2 ^ 64 -> exp_ok q ->
  mul (of_Z n) q = S754_finite s m e -> digits m <= 24.
Proof.
  intros Hn Hq. rewrite mul_comm.
  destruct (Z.eq_dec n 0) as [->|Hn0].
  - destruct q; cbn; discriminate.
  - destruct (of_Z_scaled n 0 Hn0) as (mo & eo & Hint & -> & _);
      [lia | rewrite Z.pow_0_r; lia |].
    destruct q as [sq|sq| |sq mq eq]; try (cbn; discriminate).
    destruct (mul_int_cases sq (sign_of n) mq mo eq eo Hq Hint) as (m' & e' & Hd & _ & -> & _).
    unfold cond_fin. destruct (e' <=? 104); [|discriminate].
    intros [= _ <- _]. exact Hd.
Qed.

(** An integer with at most 24 significant bits survives the conversion to
    binary32, a product with 1.0 and [lroundf]. *)
Lemma of_Z_exact (u : Z) :
  sig24 u -> u <> 0 -> Z.abs u < 2 ^ 64 ->
  exists m e,
    mul one (of_Z u) = S754_finite (sign_of u) m e
    /\ round_half_away m e = Z.abs u.
Proof.
  intros [->|(y & a & Ha & Hu & Hy)] Hu0 Hbound; [contradiction|].
  pose proof (digits_pos y) as Hpos.
  assert (H2a : 0 < 2 ^ a) by (apply pow2_pos; lia).
  assert (Hya : digits y + a <= 64).
  { destruct (Z.abs u) as [|p|p] eqn:Ep; try lia.
    rewrite <- (digits_scaled p y a) by (lia || exact Hu). apply digits_le; lia. }
  assert (Hconv : exists m, Zpos m = Zpos y * 2 ^ (24 - digits y)
                            /\ int_float m (digits y + a - 24)
                            /\ of_Z u = S754_finite (sign_of u) m (digits y + a - 24)).
  { unfold of_Z, binary_normalize, sign_of.
    destruct u as [|p|p]; [contradiction| |];
      apply (binary_round_exact _ p y a); (lia || exact Hu). }
  destruct Hconv as (m & Hm & [Hdm _] & ->).
  set (e := digits y + a - 24) in *.
  exists m, e. split.
  - unfold mul, one. cbn [SFmul xorb].
    fold (bra (sign_of u) (Zpos (8388608 * m)) (-23 + e)).
    destruct (bra_exact (sign_of u) (8388608 * m) m 23 (-23 + e) e) as (m2 & Hm2 & ->);
      [ lia | rewrite Pos2Z.inj_mul; change (2 ^ 23) with 8388608; ring
      | rewrite Hdm; unfold emin, e; lia | lia | ].
    replace (-23 + e + 23 - e) with 0 in Hm2 by lia.
    rewrite Z.pow_0_r, Z.mul_1_r in Hm2. apply Zpos_inj in Hm2. subst m2.
    apply cond_fin_finite. unfold e. lia.
  - unfold round_half_away. destruct (Z.leb_spec 0 e) as [He|He].
    + rewrite Hm, Hu, <- Z.mul_assoc, <- Z.pow_add_r by (unfold e in *; lia).
      do 2 f_equal. unfold e. lia.
    + assert (HP : 0 < 2 ^ (- e - 1)) by (apply pow2_pos; lia).
      assert (H2 : 2 ^ (- e) = 2 * 2 ^ (- e - 1)).
      { rewrite <- Z.pow_succ_r by lia. f_equal. lia. }
      assert (Hme : Zpos m = Z.abs u * 2 ^ (- e)).
      { rewrite Hm, Hu, <- Z.mul_assoc, <- Z.pow_add_r by (unfold e in *; lia).
        do 2 f_equal. unfold e. lia. }
      rewrite Hme. symmetry.
      apply Z.div_unique with (2 ^ (- e - 1)); lia.
Qed.

End F32Facts.


(** ** The geared axis *)

Section GearedAxis.

Context {A : Type} `{AccelStepper A} `{Libc}.

(** A value the [switch] does not list is stored all the same; only the
    select lines are left alone. *)
Lemma setMicrostepResolution_unlisted (res : Z) (g : GearedStepper A) (io : gpio) :
  ~ valid_microstep res ->
  getMicrostepResolution (fst (setMicrostepResolution res g io)) = res
  /\ snd (setMicrostepResolution res g io) = io.
Proof.
  intros Hres. split; [reflexivity|].
  unfold setMicrostepResolution, valid_microstep in *. cbn [snd].
  repeat match goal with
    | |- context [?a =? ?b] => destruct (Z.eqb_spec a b); [exfalso; tauto|]
    end.
  reflexivity.
Qed.

(** C1 fails on the code: after [begin()] the stored resolution is 16;
    [setMicrostepResolution(3)] then drives no select line, yet
    [getMicrostepResolution()] returns 3: the field is assigned before the
    value is looked at. *)
Theorem unlisted_microstep_is_stored (g : GearedStepper A) (io : gpio) :
  let g1 := fst (begin g io) in
  let io1 := snd (begin g io) in
  getMicrostepResolution g1 = 16
  /\ getMicrostepResolution (fst (setMicrostepResolution 3 g1 io1)) = 3
  /\ snd (setMicrostepResolution 3 g1 io1) = io1
  /\ ~ valid_microstep (getMicrostepResolution (fst (setMicrostepResolution 3 g1 io1))).
Proof.
  cbn. repeat split. unfold valid_microstep. lia.
Qed.

Lemma setMicrostepResolution_seq_frame (rs : list Z) (g : GearedStepper A) (io : gpio) :
  _base_steps_per_rot (fst (setMicrostepResolution_seq rs g io)) = _base_steps_per_rot g
  /\ _gear_ratio (fst (setMicrostepResolution_seq rs g io)) = _gear_ratio g.
Proof.
  revert g io. induction rs as [|r rs IH]; intros g io; [now split|].
  cbn [setMicrostepResolution_seq].
  destruct (setMicrostepResolution r g io) as [g' io'] eqn:E.
  apply (f_equal fst) in E. cbn [fst setMicrostepResolution] in E. subst g'.
  destruct (IH (with_microstep_resolution r g) io') as [Hb Hr].
  rewrite Hb, Hr. now split.
Qed.

(** C9: [getOutputStepsPerRotation()] is [lroundf] of the binary32
    product of the base step count and the gear ratio, and no sequence of
    [setMicrostepResolution] calls, with listed values or not, changes
    it. *)
Theorem output_steps_ignore_microstepping (rs : list Z) (g : GearedStepper A) (io : gpio) :
  getOutputStepsPerRotation g
    = lroundf (mul (of_Z (getBaseStepsPerRotation g)) (getGearRatio g))
  /\ getOutputStepsPerRotation (fst (setMicrostepResolution_seq rs g io))
     = getOutputStepsPerRotation g
  /\ (forall res, valid_microstep res ->
        getOutputStepsPerRotation (fst (setMicrostepResolution res g io))
        = getOutputStepsPerRotation g).
Proof.
  split; [reflexivity|]. split.
  - unfold getOutputStepsPerRotation.
    destruct (setMicrostepResolution_seq_frame rs g io) as [-> ->]. reflexivity.
  - intros res _. reflexivity.
Qed.

(** The two axes of the program: 1134 and 4650 full steps per output
    revolution. *)
Lemma output_steps_of_the_axes :
  getOutputStepsPerRotation (turntableStepper boot) = 1134
  /\ getOutputStepsPerRotation (tiltStepper boot) = 4650.
Proof. split; vm_compute; reflexivity. Qed.

End GearedAxis.

(** ** Unit conversion *)

Section UnitConversion.

Context {A : Type} `{AccelStepper A} `{Libc}.

Lemma in_long_range (z : Z) : in_long z = true <-> - 2 ^ 31 <= z <= 2 ^ 31 - 1.
Proof.
  unfold in_long, LONG_MIN, LONG_MAX. rewrite andb_true_iff, !Z.leb_le. tauto.
Qed.

Lemma to_long_in_long (z : Z) : in_long (to_long z) = true.
Proof.
  apply in_long_range. unfold to_long, LONG_MIN.
  pose proof (Z.mod_pos_bound (z - - 2 ^ 31) (2 ^ 32) eq_refl). lia.
Qed.

(** [lroundf] returns a [long]. *)
Lemma lroundf_in_long (x : float32) : in_long (lroundf x) = true.
Proof.
  unfold lroundf. destruct x as [s|s| |s m e]; try apply to_long_in_long.
  - reflexivity.
  - destruct (in_long (if s then - round_half_away m e else round_half_away m e)) eqn:E;
      [exact E | apply to_long_in_long].
Qed.

(** C5, as amended: for every axis, every value of [deg] and every listed
    microstep setting for which [outputStepsPerRotation * microstepResolution]
    fits a [long], [degToMicrosteps] is the formula of the specification,
    [round(deg / 360 * outputStepsPerRotation * microstepResolution)], read
    in single precision: the quotient and each product rounded to binary32
    and [round] being [lroundf], with
    [outputStepsPerRotation = lroundf(baseSteps * gearRatio)]; and a pan axis
    built with 100 base steps and gear ratio 11.335, at resolution 16, turns
    45 degrees into 2268 pulses, which is also what the formula gives on the
    exact values. *)
Theorem degToMicrosteps_is_the_formula (g : GearedStepper A) (deg : float32) :
  valid_microstep (getMicrostepResolution g) ->
  in_long (getOutputStepsPerRotation g * getMicrostepResolution g) = true ->
  degToMicrosteps g deg = degreesToPulses_spec g deg
  /\ getOutputStepsPerRotation g
     = lroundf (mul (of_Z (getBaseStepsPerRotation g)) (getGearRatio g))
  /\ forall (step_pin dir_pin enable_pin ms1_pin ms2_pin ms3_pin : N),
       degToMicrosteps
         (with_microstep_resolution 16
            (GearedStepper_new step_pin dir_pin enable_pin ms1_pin ms2_pin ms3_pin
               100 (of_decimal 11335 3)))
         (of_Z 45) = 2268
       /\ degreesToPulses_exact
            (with_microstep_resolution 16
               (GearedStepper_new step_pin dir_pin enable_pin ms1_pin ms2_pin ms3_pin
                  100 (of_decimal 11335 3)))
            (of_Z 45) = Some 2268.
Proof.
  intros Hres Hprod. split; [|split; [reflexivity|]].
  - unfold degToMicrosteps, degreesToPulses_spec. f_equal.
    change (of_decimal 3600 1) with (of_Z 360).
    destruct (F32Facts.valid_microstep_pow2 _ Hres) as (k & Hk & Hm & Hf).
    rewrite Hf, Hm. symmetry. apply F32Facts.mul_scaled_operand.
    + apply F32Facts.div_exp_ok.
    + lia.
    + apply in_long_range in Hprod. rewrite Hm in Hprod.
      change (2 ^ 31) with 2147483648 in Hprod.
      change (2 ^ 64) with 18446744073709551616. lia.
  - intros. split; vm_compute; reflexivity.
Qed.

(** The formula is one of binary32 arithmetic: on the exact values the
    rounding can fall on the other side of a half.  For the pan axis at
    resolution 16 and [deg = 8654913 * 2^-26] (about 0.129), the exact
    product is just below 6.5 while the binary32 product is 6.5. *)
Lemma exact_rounding_can_differ :
  let pan := with_microstep_resolution 16 (turntableStepper boot) in
  let deg := S754_finite false 8654913 (-26) in
  degToMicrosteps pan deg = 7
  /\ degreesToPulses_spec pan deg = 7
  /\ degreesToPulses_exact pan deg = Some 6
  /\ degreesToPulses_exact pan (of_Z 45) = Some 2268.
Proof. repeat split; vm_compute; reflexivity. Qed.

(** C6: for every axis whose parameters keep the C computation defined
    (a valid gear ratio, an output step count within [long], no overflow of
    the pulse count) and every listed microstep setting, a full turn of 360
    degrees converts to exactly [outputStepsPerRotation * microstepResolution]
    pulses: no rounding takes place. *)
Theorem full_turn_is_exact (g : GearedStepper A) :
  valid (getGearRatio g) = true ->
  in_long (getBaseStepsPerRotation g) = true ->
  lroundf_defined (mul (of_Z (getBaseStepsPerRotation g)) (getGearRatio g)) ->
  valid_microstep (getMicrostepResolution g) ->
  in_long (getOutputStepsPerRotation g * getMicrostepResolution g) = true ->
  degToMicrosteps g (of_decimal 3600 1)
  = getOutputStepsPerRotation g * getMicrostepResolution g.
Proof.
  unfold getGearRatio, getBaseStepsPerRotation.
  intros Hgear Hbase Hdef Hres Hprod.
  apply in_long_range in Hbase. change (2 ^ 31) with 2147483648 in Hbase.
  (* the output step count has at most 24 significant bits *)
  assert (Ho : sig24 (getOutputStepsPerRotation g)).
  { unfold getOutputStepsPerRotation, lroundf.
    destruct (mul (of_Z (_base_steps_per_rot g)) (_gear_ratio g)) as [s|s| |s m e] eqn:EF;
      try contradiction; [now left|].
    cbn [lroundf_defined] in Hdef.
    assert (Hd : digits m <= 24).
    { assert (Hb64 : Z.abs (_base_steps_per_rot g) < 2 ^ 64)
        by (change (2 ^ 64) with 18446744073709551616; lia).
      exact (F32Facts.mul_of_Z_digits _ _ _ _ _ Hb64 (F32Facts.valid_exp_ok _ Hgear) EF). }
    pose proof (F32Facts.round_half_away_sig24 m e Hd) as Hsig.
    destruct s.
    - replace (in_long (- round_half_away m e)) with true.
      + now apply F32Facts.sig24_opp.
      + symmetry. apply in_long_range. apply in_long_range in Hdef.
        pose proof (F32Facts.round_half_away_nonneg m e). lia.
    - rewrite Hdef. exact Hsig. }
  destruct (F32Facts.valid_microstep_pow2 _ Hres) as (k & Hk & Hm & _).
  unfold degToMicrosteps. rewrite Hm in *.
  set (u := getOutputStepsPerRotation g * 2 ^ k) in *.
  assert (Hu : sig24 u) by (apply F32Facts.sig24_scaled; [lia | exact Ho]).
  change (div (of_decimal 3600 1) (of_decimal 3600 1)) with one.
  destruct (Z.eq_dec u 0) as [->|Hu0]; [reflexivity|].
  pose proof Hprod as Hrange. apply in_long_range in Hrange.
  change (2 ^ 31) with 2147483648 in Hrange.
  destruct (F32Facts.of_Z_exact u Hu Hu0) as (m & e & -> & Hval);
    [change (2 ^ 64) with 18446744073709551616; lia|].
  unfold lroundf. rewrite Hval.
  replace (if sign_of u then - Z.abs u else Z.abs u) with u
    by (unfold sign_of; destruct (Z.ltb_spec u 0); lia).
  now rewrite Hprod.
Qed.

(** Both axes of the program meet the side conditions, at every listed
    setting. *)
Lemma full_turn_of_the_axes (w : World A) :
  constructed w ->
  (valid_microstep (getMicrostepResolution (turntableStepper w)) ->
   degToMicrosteps (turntableStepper w) (of_decimal 3600 1)
   = 1134 * getMicrostepResolution (turntableStepper w))
  /\ (valid_microstep (getMicrostepResolution (tiltStepper w)) ->
      degToMicrosteps (tiltStepper w) (of_decimal 3600 1)
      = 4650 * getMicrostepResolution (tiltStepper w)).
Proof.
  intros [(_ & _ & _ & _ & Tb & Tg) (_ & _ & _ & _ & Vb & Vg)].
  cbn [boot turntableStepper tiltStepper GearedStepper_new
       _base_steps_per_rot _gear_ratio] in Tb, Tg, Vb, Vg.
  assert (To : getOutputStepsPerRotation (turntableStepper w) = 1134)
    by (unfold getOutputStepsPerRotation; rewrite Tb, Tg; vm_compute; reflexivity).
  assert (Vo : getOutputStepsPerRotation (tiltStepper w) = 4650)
    by (unfold getOutputStepsPerRotation; rewrite Vb, Vg; vm_compute; reflexivity).
  split; intros Hres; unfold degToMicrosteps; rewrite ?To, ?Vo;
    destruct Hres as [E | [E | [E | [E | E]]]]; rewrite E; vm_compute; reflexivity.
Qed.

End UnitConversion.

(** ** The command dispatcher *)

Section Dispatcher.

Context {A : Type} `{AccelStepper A} `{Libc}.

(** Reduce [dispatch] on a line whose first character is known. *)
Ltac head_known Hfirst :=
  let t := fresh "t" in
  let Ht := fresh "Ht" in
  destruct (first_nonspace_trim _ _ Hfirst) as [t Ht];
  unfold dispatch; rewrite Ht;
  cbn [String.length Nat.eqb charAt String.get c_str_plus1].

Lemma ack_serial_out (msg : string) (w : World A) :
  serial_out (ack msg w) = serial_out w ++ [msg].
Proof. reflexivity. Qed.

Lemma reply_differs (l : list string) (a b : string) :
  a <> b -> l ++ [a] <> l ++ [b].
Proof. intros Hab Heq. apply app_inv_head in Heq. congruence. Qed.

Lemma no_reply_differs (l : list string) (a : string) : l <> l ++ [a].
Proof.
  intros Heq. apply (f_equal (@List.length string)) in Heq.
  rewrite length_app in Heq. simpl in Heq. lia.
Qed.

(** The text after ["OK "] decides: no microstep reply reads ["OK STOP"]. *)
Lemma microstep_reply_differs (res : Z) :
  ("OK MICROSTEP " ++ String_of_int res)%string <> "OK STOP"%string.
Proof. cbn [append]. discriminate. Qed.

Ltac reply_not_stop :=
  intros [= <-]; rewrite ?ack_serial_out;
  first [ apply no_reply_differs
        | apply reply_differs;
          first [ discriminate | apply microstep_reply_differs ] ].

(** Walk the tests of [dispatch] in source order; [tac] closes the branch
    taken when a test succeeds. *)
Ltac each_branch tac :=
  repeat lazymatch goal with
    | |- (if ?b then _ else _) = _ -> _ =>
        let E := fresh "E" in destruct b eqn:E; [ try tac | ]
    end;
  try tac.

(** No line, in no state, draws the reply of the stop-both branch: when
    its test [c == 'X'] is reached, the pan [switch] has already refused
    ['X']. *)
Lemma never_replies_OK_STOP (fuel : nat) (input : string) (w w' : World A) :
  dispatch fuel input w = Some w' ->
  serial_out w' <> serial_out w ++ ["OK STOP"%string].
Proof.
  unfold dispatch.
  set (c := charAt (trim input) 0).
  destruct (sscanf_ff (c_str_plus1 (trim input))) as [[n panDeg] tiltDeg].
  destruct (maxSpeed fuel (turntableStepper w)).
  all: each_branch reply_not_stop.
  all: rewrite orb_true_r in *; discriminate.
Qed.

(** C2: for every input line whose first non-whitespace character is
    ['X'], the dispatcher calls [stop()] on the pan axis only and replies
    ["OK ROT STOP"]; and no input line whatsoever, in any state, draws the
    reply ["OK STOP"] of the stop-both branch, which is therefore never
    taken. *)
Theorem X_stops_pan_only (fuel : nat) (input : string) (w : World A) :
  first_nonspace input = Some "X"%char ->
  dispatch fuel input w = Some (ack "OK ROT STOP" (on_tt stop w))
  /\ tiltStepper (ack "OK ROT STOP" (on_tt stop w)) = tiltStepper w
  /\ (forall (fuel' : nat) (input' : string) (w0 w' : World A),
         dispatch fuel' input' w0 = Some w' ->
         serial_out w' <> serial_out w0 ++ ["OK STOP"%string]).
Proof.
  intros Hfirst. split; [|split].
  - head_known Hfirst. reflexivity.
  - reflexivity.
  - intros fuel' input' w0 w'. apply never_replies_OK_STOP.
Qed.

(** C8: for every state, a line whose command character is the uppercase
    ['Z'] is answered ["ERR Unknown"] and nothing but the serial output
    changes; the tilt stop is taken for the lowercase ['z'] only. *)
Theorem uppercase_Z_is_unknown (fuel : nat) (input : string) (w : World A) :
  first_nonspace input = Some "Z"%char ->
  dispatch fuel input w = Some (ack "ERR Unknown" w)
  /\ dispatch fuel "Z" w = Some (ack "ERR Unknown" w)
  /\ dispatch fuel "z" w = Some (ack "OK TILT STOP" (on_vt stop w)).
Proof.
  intros Hfirst. split; [|split].
  - head_known Hfirst. reflexivity.
  - reflexivity.
  - reflexivity.
Qed.

(** C7, as amended: for every line with command character ['M'] (or
    ['m']) from whose argument text [sscanf] does not read two numbers (a
    count other than 2), the reply is ["ERR Syntax"] and nothing but the
    serial output changes: no axis is enabled, no target is set and no
    other member changes; a line from which two numbers are read is
    answered ["OK M"], whatever follows the second number. *)
Theorem M_syntax_error (fuel : nat) (input : string) (w : World A) (c : ascii) :
  first_nonspace input = Some c ->
  c = "M"%char \/ c = "m"%char ->
  (fst (fst (sscanf_ff (c_str_plus1 (trim input)))) <> 2 ->
   dispatch fuel input w = Some (ack "ERR Syntax" w)
   /\ pins (ack "ERR Syntax" w) = pins w
   /\ turntableStepper (ack "ERR Syntax" w) = turntableStepper w
   /\ tiltStepper (ack "ERR Syntax" w) = tiltStepper w
   /\ rot_dir (ack "ERR Syntax" w) = rot_dir w
   /\ til_dir (ack "ERR Syntax" w) = til_dir w)
  /\ (fst (fst (sscanf_ff (c_str_plus1 (trim input)))) = 2 ->
      exists w', dispatch fuel input w = Some w'
                 /\ serial_out w' = serial_out w ++ ["OK M"%string]).
Proof.
  intros Hfirst Hc.
  destruct (first_nonspace_trim _ _ Hfirst) as [t Ht].
  unfold dispatch. rewrite Ht in *.
  cbn [String.length Nat.eqb charAt String.get] in *.
  destruct (sscanf_ff (c_str_plus1 (String c t))) as [[n panDeg] tiltDeg].
  cbn [fst]. split; intros Hscan.
  - apply Z.eqb_neq in Hscan.
    destruct Hc as [-> | ->]; cbv beta iota; rewrite Hscan; repeat split.
  - subst n. destruct Hc as [-> | ->]; eexists; split; reflexivity.
Qed.

Lemma enable_line_high_after_disable (w : World A) :
  let w' := io_vt disable (io_tt disable w) in
  pin_level (_enable_pin (turntableStepper w')) (pins w') = Some HIGH
  /\ pin_level (_enable_pin (tiltStepper w')) (pins w') = Some HIGH.
Proof.
  cbn. rewrite !N.eqb_refl.
  destruct (_enable_pin (tiltStepper w) =? _enable_pin (turntableStepper w))%N;
    split; reflexivity.
Qed.

(** C4: for every state, the command ['Q'] is answered ["BUSY"] exactly
    when at least one axis has a nonzero [distanceToGo()], and then nothing
    but the serial output changes; otherwise both drivers are disabled
    (enable lines driven HIGH) and the answer is ["DONE"]. *)
Theorem Q_reports_busy_or_done (fuel : nat) (input : string) (w : World A) (c : ascii) :
  first_nonspace input = Some c ->
  c = "Q"%char \/ c = "q"%char ->
  let busy := distanceToGo (turntableStepper w) <> 0
              \/ distanceToGo (tiltStepper w) <> 0 in
  exists w',
    dispatch fuel input w = Some w'
    /\ (busy <-> serial_out w' = serial_out w ++ ["BUSY"%string])
    /\ (busy -> w' = ack "BUSY" w)
    /\ (~ busy ->
        w' = ack "DONE" (io_vt disable (io_tt disable w))
        /\ pin_level (_enable_pin (turntableStepper w')) (pins w') = Some HIGH
        /\ pin_level (_enable_pin (tiltStepper w')) (pins w') = Some HIGH
        /\ turntableStepper w' = turntableStepper w
        /\ tiltStepper w' = tiltStepper w).
Proof.
  intros Hfirst Hc busy.
  assert (Hd : dispatch fuel input w =
               if negb (distanceToGo (turntableStepper w) =? 0)
                  || negb (distanceToGo (tiltStepper w) =? 0)
               then Some (ack "BUSY" w)
               else Some (ack "DONE" (io_vt disable (io_tt disable w)))).
  { head_known Hfirst. destruct Hc as [-> | ->]; reflexivity. }
  rewrite Hd. subst busy.
  destruct (Z.eqb_spec (distanceToGo (turntableStepper w)) 0) as [Ea|Ea];
    [destruct (Z.eqb_spec (distanceToGo (tiltStepper w)) 0) as [Eb|Eb]|];
    cbn [negb orb]; eexists; (split; [reflexivity|]).
  - split; [|split].
    + split; [intros [?|?]; contradiction|].
      rewrite ack_serial_out. intros Hout.
      apply reply_differs in Hout; [contradiction|discriminate].
    + intros [?|?]; contradiction.
    + intros _. split; [reflexivity|].
      destruct (enable_line_high_after_disable w) as [H1 H2].
      repeat split; assumption.
  - split; [|split].
    + split; [reflexivity | intros _; now right].
    + reflexivity.
    + intros Hn. exfalso. apply Hn. now right.
  - split; [|split].
    + split; [reflexivity | intros _; now left].
    + reflexivity.
    + intros Hn. exfalso. apply Hn. now left.
Qed.

(** *** Which commands drive the enable line *)

(** [setMicrostepResolution] assigns the field and writes select lines
    only. *)
Lemma setMicrostepResolution_effect (res : Z) (g : GearedStepper A) (io : gpio) :
  fst (setMicrostepResolution res g io) = with_microstep_resolution res g
  /\ exists evs, snd (setMicrostepResolution res g io) = evs ++ io
                 /\ forall ev, In ev evs -> select_line_write g ev.
Proof.
  split; [reflexivity|]. unfold setMicrostepResolution, write_ms, digitalWrite.
  cbn [snd _ms1_pin _ms2_pin _ms3_pin with_microstep_resolution].
  repeat match goal with
    | |- context [if ?b then _ else _] => destruct b
    end;
    [ eexists [_; _; _] .. | exists [] ];
    (split; [reflexivity|]);
    cbn [In]; intros ev Hev; unfold select_line_write;
    repeat destruct Hev as [<- | Hev]; try contradiction; eauto.
Qed.

Lemma select_line_is_not_enable (w : World A) (g : GearedStepper A) (ev : gpio_event) :
  constructed w ->
  g = turntableStepper w \/ g = tiltStepper w ->
  select_line_write g ev -> ev <> DigitalWrite D0 LOW.
Proof.
  intros [(_ & T1 & T2 & T3 & _) (_ & V1 & V2 & V3 & _)] Hg [v Hev] ->.
  destruct Hg as [-> | ->].
  - rewrite T1, T2, T3 in Hev. destruct Hev as [Hev | [Hev | Hev]]; discriminate Hev.
  - rewrite V1, V2, V3 in Hev. destruct Hev as [Hev | [Hev | Hev]]; discriminate Hev.
Qed.

Ltac no_lines_driven :=
  intros [= <-]; exists []; split; [reflexivity | intros []].

Ltac lines_driven_high :=
  intros [= <-]; eexists; split;
  [ exact (eq_refl : _ = [_; _] ++ _)
  | cbn [In]; intros [Hev | [Hev | []]]; discriminate Hev ].

(** Apart from ['M'] and ['e'], no command calls [enable()]: whatever it
    drives, it does not write LOW to the (shared) enable line. *)
Lemma only_M_and_e_enable (fuel : nat) (input : string) (w w' : World A) :
  constructed w ->
  let c := charAt (trim input) 0 in
  c <> "M"%char -> c <> "m"%char -> c <> "e"%char -> c <> "E"%char ->
  dispatch fuel input w = Some w' ->
  exists evs, driven w w' evs /\ ~ In (DigitalWrite D0 LOW) evs.
Proof.
  intros Hw c HM Hm He HE. unfold dispatch, driven. fold c.
  apply Ascii.eqb_neq in HM, Hm, He, HE. rewrite HM, Hm, He, HE. cbn [orb].
  destruct (maxSpeed fuel (turntableStepper w)).
  all: each_branch ltac:(first [ no_lines_driven | lines_driven_high ]).
  all: intros [= <-].
  all: set (res := if (c =? "6")%char then 16 else _).
  all: destruct (setMicrostepResolution_effect res (turntableStepper w) (pins w))
         as [Hg1 (evs1 & Hio1 & Hsel1)].
  all: set (w1 := obj_io_tt (setMicrostepResolution res) w).
  all: destruct (setMicrostepResolution_effect res (tiltStepper w1) (pins w1))
         as [Hg2 (evs2 & Hio2 & Hsel2)].
  all: exists (evs2 ++ evs1).
  all: split;
    [ cbn [pins ack obj_io_vt set_pins]; fold w1; rewrite Hio2;
      unfold w1 at 1; cbn [pins obj_io_tt set_pins]; rewrite Hio1;
      now rewrite app_assoc
    | intros Hin; apply in_app_or in Hin; destruct Hin as [Hin | Hin];
      [ apply Hsel2 in Hin;
        refine (select_line_is_not_enable w _ _ Hw _ Hin eq_refl); right; reflexivity
      | apply Hsel1 in Hin;
        refine (select_line_is_not_enable w _ _ Hw _ Hin eq_refl); left; reflexivity ] ].
Qed.

(** C10: for every state, the jog commands ([n], [c] on pan; [w], [p] on
    tilt) only issue a relative [move] on their axis: no line is driven, so
    the enable lines keep their state and a disabled driver merely
    accumulates a target.  Of all commands only ['M'] (with two numbers)
    and ['e'] call [enable()], i.e. write LOW to the enable line. *)
Theorem jog_does_not_enable (fuel : nat) (input : string) (w : World A) (c : ascii) :
  constructed w ->
  first_nonspace input = Some c ->
  (In c ["n"; "N"; "c"; "C"; "w"; "W"; "p"; "P"]%char ->
   exists w' rel,
     dispatch fuel input w = Some w'
     /\ pins w' = pins w
     /\ ((turntableStepper w' = move rel (turntableStepper w)
          /\ tiltStepper w' = tiltStepper w)
         \/ (tiltStepper w' = move rel (tiltStepper w)
             /\ turntableStepper w' = turntableStepper w)))
  /\ (~ In c ["M"; "m"; "e"; "E"]%char ->
      forall w', dispatch fuel input w = Some w' ->
      exists evs, driven w w' evs /\ ~ In (DigitalWrite D0 LOW) evs)
  /\ (In c ["e"; "E"]%char ->
      exists w', dispatch fuel input w = Some w'
                 /\ driven w w' [DigitalWrite D0 LOW; DigitalWrite D0 LOW])
  /\ (In c ["M"; "m"]%char ->
      fst (fst (sscanf_ff (c_str_plus1 (trim input)))) = 2 ->
      exists w', dispatch fuel input w = Some w'
                 /\ driven w w' [DigitalWrite D0 LOW; DigitalWrite D0 LOW]).
Proof.
  intros Hw Hfirst.
  pose proof Hw as [(T0 & _) (V0 & _)].
  cbn [boot turntableStepper tiltStepper GearedStepper_new _enable_pin] in T0, V0.
  split; [|split; [|split]].
  - intros Hc. head_known Hfirst. cbn [In] in Hc.
    repeat destruct Hc as [<- | Hc]; try contradiction;
      eexists; eexists; (split; [reflexivity|]); (split; [reflexivity|]);
      first [ left; split; reflexivity | right; split; reflexivity ].
  - intros Hc w' Hd.
    destruct (first_nonspace_trim _ _ Hfirst) as [t Ht].
    apply (only_M_and_e_enable fuel input w w' Hw); [ .. | exact Hd];
      rewrite Ht; cbn [charAt String.get]; intros ->; apply Hc; cbn [In]; tauto.
  - intros Hc. head_known Hfirst. unfold driven. cbn [In] in Hc.
    repeat destruct Hc as [<- | Hc]; try contradiction;
      eexists; (split; [reflexivity|]);
      cbn -[degToMicrosteps]; unfold enable, digitalWrite; rewrite T0, V0; reflexivity.
  - intros Hc Hscan.
    destruct (first_nonspace_trim _ _ Hfirst) as [t Ht].
    unfold dispatch, driven. rewrite Ht in *.
    cbn [String.length Nat.eqb charAt String.get] in *.
    destruct (sscanf_ff (c_str_plus1 (String c t))) as [[n panDeg] tiltDeg].
    cbn [fst] in Hscan. subst n. cbn [In] in Hc.
    repeat destruct Hc as [<- | Hc]; try contradiction;
      eexists; (split; [reflexivity|]);
      cbn -[degToMicrosteps]; unfold enable, digitalWrite; rewrite T0, V0; reflexivity.
Qed.

(** C3 fails on the code: [GearedStepper::maxSpeed()] calls itself and
    never returns, whatever the number of nested calls allowed; the ['+'] and
    ['-'] commands, which read the speed back through it, therefore never
    reply and change nothing. *)
Theorem speed_adjust_never_returns (fuel : nat) (w : World A) :
  maxSpeed fuel (turntableStepper w) = None
  /\ dispatch fuel "+" w = None
  /\ dispatch fuel "-" w = None.
Proof.
  assert (Hm : forall g : GearedStepper A, maxSpeed fuel g = None)
    by (induction fuel; intros g; simpl; auto).
  split; [apply Hm|].
  unfold dispatch; cbn; rewrite Hm; split; reflexivity.
Qed.

(** The same for every line whose command character is ['+'] or ['-']. *)
Lemma speed_adjust_diverges (fuel : nat) (input : string) (w : World A) (c : ascii) :
  first_nonspace input = Some c ->
  c = "+"%char \/ c = "-"%char ->
  dispatch fuel input w = None.
Proof.
  intros Hfirst Hc.
  assert (Hm : forall g : GearedStepper A, maxSpeed fuel g = None)
    by (induction fuel; intros g; simpl; auto).
  head_known Hfirst. destruct Hc as [-> | ->]; cbn; rewrite Hm; reflexivity.
Qed.

(** Every other command returns, with no fuel at all. *)
Lemma other_commands_return (input : string) (w : World A) :
  charAt (trim input) 0 <> "+"%char ->
  charAt (trim input) 0 <> "-"%char ->
  exists w', dispatch 0 input w = Some w'.
Proof.
  intros Hp Hm. unfold dispatch.
  apply Ascii.eqb_neq in Hp, Hm. rewrite Hp, Hm. cbn [orb].
  destruct (sscanf_ff (c_str_plus1 (trim input))) as [[n panDeg] tiltDeg].
  repeat lazymatch goal with
    | |- exists w', (if ?b then _ else _) = _ =>
        destruct b; [ try (eexists; reflexivity) | ]
    end;
    eexists; reflexivity.
Qed.

(** A line that starts with a NUL byte takes the microstep branch
    ([strchr] finds the terminator of ["12486"]) and stores -48. *)
Lemma nul_line_sets_microstep (fuel : nat) (w : World A) :
  exists w', dispatch fuel (String zero EmptyString) w = Some w'
             /\ getMicrostepResolution (turntableStepper w') = -48
             /\ getMicrostepResolution (tiltStepper w') = -48
             /\ pins w' = pins w.
Proof. eexists. split; [reflexivity|]. cbn. repeat split. Qed.

(** *** The constructed objects stay the constructed objects *)

Lemma setup_constructed (banner : string) : constructed (setup banner boot).
Proof. repeat split. Qed.

Lemma dispatch_constructed (fuel : nat) (input : string) (w w' : World A) :
  constructed w -> dispatch fuel input w = Some w' -> constructed w'.
Proof.
  intros Hw. unfold dispatch.
  destruct (sscanf_ff (c_str_plus1 (trim input))) as [[n panDeg] tiltDeg].
  destruct (maxSpeed fuel (turntableStepper w)).
  all: each_branch ltac:(intros [= <-]; exact Hw).
Qed.

Lemma loop_constructed (fuel : nat) (available : option string) (w w' : World A) :
  constructed w -> loop fuel available w = Some w' -> constructed w'.
Proof.
  intros Hw. unfold loop. destruct available as [input|].
  - apply dispatch_constructed. exact Hw.
  - intros [= <-]. exact Hw.
Qed.

End Dispatcher.

(** ** The theorems at concrete inputs

    The reference instances, the state after [setup], and one line each. *)

Import Ref.

Lemma X_stops_pan_only_witness :
  first_nonspace " X" = Some "X"%char
  /\ dispatch 0 " X" Ref.ready = Some (ack "OK ROT STOP" (on_tt stop Ref.ready)).
Proof.
  split; [reflexivity|].
  exact (proj1 (X_stops_pan_only 0 " X" Ref.ready eq_refl)).
Defined.

Lemma uppercase_Z_is_unknown_witness :
  first_nonspace "Z" = Some "Z"%char
  /\ dispatch 0 "Z" Ref.ready = Some (ack "ERR Unknown" Ref.ready).
Proof.
  split; [reflexivity|].
  exact (proj1 (uppercase_Z_is_unknown 0 "Z" Ref.ready eq_refl)).
Defined.

Lemma M_syntax_error_witness :
  first_nonspace "M 10" = Some "M"%char
  /\ fst (fst (sscanf_ff (c_str_plus1 (trim "M 10")))) = 1
  /\ dispatch 0 "M 10" Ref.ready = Some (ack "ERR Syntax" Ref.ready).
Proof.
  split; [reflexivity|]. split; [reflexivity|].
  refine (proj1 (proj1 (M_syntax_error 0 "M 10" Ref.ready "M" eq_refl (or_introl eq_refl)) _)).
  vm_compute. discriminate.
Defined.

(** The claim of C7 fails on the line ["M 10 2x"]: its second field is not
    a number, yet the scan stops after the [2] with both conversions done
    (as the C standard prescribes for [sscanf]), so the line is a move: the
    reply is ["OK M"], the shared enable line goes from HIGH to LOW and both
    targets are set. *)
Lemma M_accepts_a_malformed_field :
  first_nonspace "M 10 2x" = Some "M"%char
  /\ argument_fields "M 10 2x" = ["10"; "2x"]%string
  /\ numeric_field "2x" = false
  /\ two_numeric_fields "M 10 2x" = false
  /\ sscanf_ff (c_str_plus1 (trim "M 10 2x")) = (2, of_Z 10, of_Z 2)
  /\ exists w',
       dispatch 0 "M 10 2x" Ref.ready = Some w'
       /\ w' <> ack "ERR Syntax" Ref.ready
       /\ serial_out w' = serial_out Ref.ready ++ ["OK M"%string]
       /\ pin_level TT_ENABLE_PIN (pins Ref.ready) = Some HIGH
       /\ pin_level TT_ENABLE_PIN (pins w') = Some LOW
       /\ targetPosition (turntableStepper Ref.ready) = 0
       /\ targetPosition (turntableStepper w') = 504
       /\ targetPosition (tiltStepper Ref.ready) = 0
       /\ targetPosition (tiltStepper w') = 413.
Proof.
  do 5 (split; [vm_compute; reflexivity|]).
  eexists. split; [vm_compute; reflexivity|].
  split; [intros E; apply (f_equal (@serial_out _)) in E; vm_compute in E; discriminate|].
  repeat split; vm_compute; reflexivity.
Qed.

Lemma Q_reports_busy_or_done_witness :
  first_nonspace "Q" = Some "Q"%char
  /\ exists w', dispatch 0 "Q" Ref.ready = Some w'
                /\ (~ (distanceToGo (turntableStepper Ref.ready) <> 0
                       \/ distanceToGo (tiltStepper Ref.ready) <> 0) ->
                    w' = ack "DONE" (io_vt disable (io_tt disable Ref.ready))).
Proof.
  split; [reflexivity|].
  destruct (Q_reports_busy_or_done 0 "Q" Ref.ready "Q" eq_refl (or_introl eq_refl))
    as (w' & Hd & _ & _ & Hdone).
  exists w'. split; [exact Hd|]. intros Hidle. exact (proj1 (Hdone Hidle)).
Defined.

Lemma jog_does_not_enable_witness :
  constructed Ref.ready
  /\ first_nonspace "n" = Some "n"%char
  /\ exists w' rel, dispatch 0 "n" Ref.ready = Some w' /\ pins w' = pins Ref.ready
                    /\ ((turntableStepper w' = move rel (turntableStepper Ref.ready)
                         /\ tiltStepper w' = tiltStepper Ref.ready)
                        \/ (tiltStepper w' = move rel (tiltStepper Ref.ready)
                            /\ turntableStepper w' = turntableStepper Ref.ready)).
Proof.
  split; [apply setup_constructed|]. split; [reflexivity|].
  apply (proj1 (jog_does_not_enable 0 "n" Ref.ready "n"
                  (setup_constructed EmptyString) eq_refl)).
  cbn [In]. left. reflexivity.
Defined.

Lemma degToMicrosteps_is_the_formula_witness :
  valid_microstep (getMicrostepResolution (turntableStepper Ref.ready))
  /\ in_long (getOutputStepsPerRotation (turntableStepper Ref.ready)
              * getMicrostepResolution (turntableStepper Ref.ready)) = true
  /\ degToMicrosteps (turntableStepper Ref.ready) (of_Z 45)
     = degreesToPulses_spec (turntableStepper Ref.ready) (of_Z 45).
Proof.
  assert (Hres : valid_microstep (getMicrostepResolution (turntableStepper Ref.ready)))
    by (do 4 right; reflexivity).
  split; [exact Hres|]. split; [reflexivity|].
  exact (proj1 (degToMicrosteps_is_the_formula (turntableStepper Ref.ready) (of_Z 45)
                  Hres eq_refl)).
Defined.

(** The claim of C5 fails on the exact values: for the pan axis after
    [setup] (1134 output steps, resolution 16) and [deg] the binary32
    number nearest to 180.248, the quantity to round is between 9084 and
    9084.5, so the formula gives 9084 under any rounding to nearest, while
    [degToMicrosteps] returns 9085 (the binary32 product is 9084.5); the
    line ["M 180.248 0"] queues these 9085 pulses. *)
Lemma exact_formula_is_one_pulse_off :
  getOutputStepsPerRotation (turntableStepper Ref.ready) = 1134
  /\ getMicrostepResolution (turntableStepper Ref.ready) = 16
  /\ value (of_decimal 180248 3) = Some (11812733 # 65536)%Q
  /\ (exists q : Q,
        degreesToPulses_real (turntableStepper Ref.ready) (of_decimal 180248 3) = Some q
        /\ (9084 < q)%Q /\ (q < 9084 + (1 # 2))%Q)
  /\ degreesToPulses_exact (turntableStepper Ref.ready) (of_decimal 180248 3) = Some 9084
  /\ degToMicrosteps (turntableStepper Ref.ready) (of_decimal 180248 3) = 9085
  /\ mul (div (of_decimal 180248 3) (of_decimal 3600 1)) (of_Z (1134 * 16))
     = S754_finite false 9302528 (-10)
  /\ sscanf_ff (c_str_plus1 (trim "M 180.248 0"))
     = (2, of_decimal 180248 3, S754_zero false)
  /\ exists w',
       dispatch 0 "M 180.248 0" Ref.ready = Some w'
       /\ targetPosition (turntableStepper Ref.ready) = 0
       /\ targetPosition (turntableStepper w') = 9085.
Proof.
  do 3 (split; [vm_compute; reflexivity|]).
  split.
  { eexists. split; [cbv; reflexivity|]. split; vm_compute; reflexivity. }
  do 4 (split; [vm_compute; reflexivity|]).
  eexists. split; [vm_compute; reflexivity|]. split; vm_compute; reflexivity.
Qed.

Lemma full_turn_is_exact_witness :
  valid (getGearRatio (turntableStepper Ref.ready)) = true
  /\ valid_microstep (getMicrostepResolution (turntableStepper Ref.ready))
  /\ degToMicrosteps (turntableStepper Ref.ready) (of_decimal 3600 1)
     = getOutputStepsPerRotation (turntableStepper Ref.ready)
       * getMicrostepResolution (turntableStepper Ref.ready)
  /\ getOutputStepsPerRotation (turntableStepper Ref.ready)
     * getMicrostepResolution (turntableStepper Ref.ready) = 18144.
Proof.
  split; [reflexivity|].
  assert (Hres : valid_microstep (getMicrostepResolution (turntableStepper Ref.ready)))
    by (do 4 right; reflexivity).
  split; [exact Hres|]. split; [|reflexivity].
  apply (full_turn_is_exact (turntableStepper Ref.ready)).
  - reflexivity.
  - reflexivity.
  - vm_compute. reflexivity.
  - exact Hres.
  - vm_compute. reflexivity.
Defined.

(** A well-formed move, end to end: both drivers enabled, 45 and 90 degrees
    queued as 2268 and 18600 pulses. *)
Lemma M_two_numbers_move :
  exists w', dispatch 0 "M 45 90" Ref.ready = Some w'
             /\ targetPosition (turntableStepper w') = 2268
             /\ targetPosition (tiltStepper w') = 18600
             /\ pin_level D0 (pins w') = Some LOW
             /\ serial_out w' = serial_out Ref.ready ++ ["OK M"%string].
Proof. eexists. split; [reflexivity|]. repeat split. Qed.

(** * Further properties of the code *)

(** ** Lines *)

Lemma pin_level_high_extend (evs io : gpio) (p : N) :
  Forall drives_high evs ->
  pin_level p io = Some HIGH -> pin_level p (evs ++ io) = Some HIGH.
Proof.
  intros Hall Hio. induction Hall as [|ev evs Hev _ IH]; [exact Hio|].
  cbn [app pin_level]. destruct ev as [q|q [|]]; cbn in Hev; try contradiction; try exact IH.
  destruct (q =? p)%N; [reflexivity | exact IH].
Qed.

Lemma pin_level_written_high (evs io : gpio) (p : N) :
  Forall drives_high evs ->
  In (DigitalWrite p HIGH) evs -> pin_level p (evs ++ io) = Some HIGH.
Proof.
  intros Hall Hin. induction Hall as [|ev evs Hev _ IH]; [contradiction|].
  cbn [app pin_level]. destruct Hin as [-> | Hin].
  - now rewrite N.eqb_refl.
  - destruct ev as [q|q [|]]; cbn in Hev; try contradiction; auto.
    destruct (q =? p)%N; auto.
Qed.

Section GearedAxisMore.

Context {A : Type} `{AccelStepper A} `{Libc}.

(** The events of one [begin()]. *)
Lemma begin_events (g : GearedStepper A) (io : gpio) :
  snd (begin g io)
  = [DigitalWrite (_ms3_pin g) HIGH; DigitalWrite (_ms2_pin g) HIGH;
     DigitalWrite (_ms1_pin g) HIGH; DigitalWrite (_enable_pin g) HIGH;
     PinModeOutput (_ms3_pin g); PinModeOutput (_ms2_pin g);
     PinModeOutput (_ms1_pin g); PinModeOutput (_enable_pin g)] ++ io.
Proof. reflexivity. Qed.

Lemma begin_events_high (g : GearedStepper A) :
  Forall drives_high
    [DigitalWrite (_ms3_pin g) HIGH; DigitalWrite (_ms2_pin g) HIGH;
     DigitalWrite (_ms1_pin g) HIGH; DigitalWrite (_enable_pin g) HIGH;
     PinModeOutput (_ms3_pin g); PinModeOutput (_ms2_pin g);
     PinModeOutput (_ms1_pin g); PinModeOutput (_enable_pin g)].
Proof. repeat constructor. Qed.

(** X1: [begin()] leaves the axis disabled and set to 1/16 step whatever
    its pin assignment and the earlier line states: the stored resolution is
    16 and the enable line and the three select lines all read HIGH; the
    motion primitive is not touched. *)
Theorem begin_disables_and_selects_16 (g : GearedStepper A) (io : gpio) :
  let g1 := fst (begin g io) in
  let io1 := snd (begin g io) in
  getMicrostepResolution g1 = 16
  /\ pin_level (_enable_pin g1) io1 = Some HIGH
  /\ select_levels g1 io1 = (Some HIGH, Some HIGH, Some HIGH)
  /\ _stepper g1 = _stepper g.
Proof.
  cbv zeta. rewrite begin_events.
  split; [reflexivity|]. split; [|split; [|reflexivity]].
  - apply pin_level_written_high; [apply begin_events_high | cbn; tauto].
  - unfold select_levels. repeat f_equal;
      (apply pin_level_written_high; [apply begin_events_high | cbn; tauto]).
Qed.

Lemma select_pattern_injective (r1 r2 : Z) :
  valid_microstep r1 -> valid_microstep r2 ->
  select_pattern r1 = select_pattern r2 -> r1 = r2.
Proof.
  intros [-> | [-> | [-> | [-> | ->]]]] [-> | [-> | [-> | [-> | ->]]]];
    cbn; intros Heq; (reflexivity || discriminate Heq).
Qed.

(** X2: with three different select pins, a listed value is stored and
    can be read back from the lines: they carry the pattern of the [switch],
    whatever was set before; no two listed values share a pattern; and an
    enable line on a pin of its own keeps its level. *)
Theorem select_lines_encode_the_setting (res : Z) (g : GearedStepper A) (io : gpio) :
  select_pins_distinct g ->
  valid_microstep res ->
  let g' := fst (setMicrostepResolution res g io) in
  let io' := snd (setMicrostepResolution res g io) in
  let '(v1, v2, v3) := select_pattern res in
  getMicrostepResolution g' = res
  /\ select_levels g' io' = (Some v1, Some v2, Some v3)
  /\ (forall res', valid_microstep res' -> select_pattern res' = select_pattern res -> res' = res)
  /\ (_enable_pin g <> _ms1_pin g -> _enable_pin g <> _ms2_pin g ->
      _enable_pin g <> _ms3_pin g ->
      pin_level (_enable_pin g') io' = pin_level (_enable_pin g) io).
Proof.
  intros (H12 & H13 & H23) Hres.
  assert (E21 : (_ms2_pin g =? _ms1_pin g)%N = false) by (apply N.eqb_neq; congruence).
  assert (E31 : (_ms3_pin g =? _ms1_pin g)%N = false) by (apply N.eqb_neq; congruence).
  assert (E32 : (_ms3_pin g =? _ms2_pin g)%N = false) by (apply N.eqb_neq; congruence).
  assert (Hinj : forall res', valid_microstep res' ->
                   select_pattern res' = select_pattern res -> res' = res)
    by (intros res' Hres'; apply select_pattern_injective; assumption).
  destruct Hres as [-> | [-> | [-> | [-> | ->]]]]; cbn -[valid_microstep select_pattern];
    cbn [select_pattern Z.eqb Pos.eqb];
    (split; [reflexivity|]); (split; [|split; [exact Hinj|]]).
  all: try (unfold select_levels; cbn; rewrite ?E21, ?E31, ?E32, ?N.eqb_refl; reflexivity).
  all: intros N1 N2 N3; cbn;
    apply not_eq_sym, N.eqb_neq in N1; apply not_eq_sym, N.eqb_neq in N2;
    apply not_eq_sym, N.eqb_neq in N3; rewrite N1, N2, N3; reflexivity.
Qed.

End GearedAxisMore.

(** ** The dispatcher, command by command *)

Lemma trim_nonspace_head (c : ascii) (t : string) :
  isspace c = false -> trim (String c t) = String c (trim_right t).
Proof.
  intros Hc. unfold trim. cbn [trim_left]. rewrite Hc. cbn [trim_right].
  destruct (trim_right t); [now rewrite Hc | reflexivity].
Qed.

Ltac at_head Hfirst :=
  let t := fresh "t" in
  let Ht := fresh "Ht" in
  destruct (first_nonspace_trim _ _ Hfirst) as [t Ht];
  unfold dispatch; rewrite Ht;
  cbn [String.length Nat.eqb charAt String.get c_str_plus1].

Ltac by_branch tac :=
  repeat lazymatch goal with
    | |- (if ?b then _ else _) = _ -> _ =>
        let E := fresh "E" in destruct b eqn:E; [ try tac | ]
    end;
  try tac.

Section DispatcherMore.

Context {A : Type} `{AccelStepper A} `{Libc}.

(** A line of white space only, or an empty one, changes nothing and
    draws no reply. *)
Lemma blank_line_is_ignored (fuel : nat) (input : string) (w : World A) :
  first_nonspace input = None -> dispatch fuel input w = Some w.
Proof.
  intros Hblank. unfold dispatch. rewrite (first_nonspace_none _ Hblank). reflexivity.
Qed.

(** X3: apart from the move command, only the command character
    counts: leading white space and any text after it are ignored. *)
Theorem text_after_the_command_is_ignored
    (fuel : nat) (input : string) (w : World A) (c : ascii) :
  first_nonspace input = Some c ->
  c <> "M"%char -> c <> "m"%char ->
  dispatch fuel input w = dispatch fuel (String c EmptyString) w.
Proof.
  intros Hfirst HM Hm.
  destruct (first_nonspace_trim_left _ _ Hfirst) as [Hc _].
  destruct (first_nonspace_trim _ _ Hfirst) as [t Ht].
  unfold dispatch. rewrite Ht, (trim_nonspace_head c EmptyString Hc).
  cbn [trim_right String.length Nat.eqb charAt String.get].
  apply Ascii.eqb_neq in HM, Hm. rewrite HM, Hm. reflexivity.
Qed.

(** X4: the letter commands [v m q n c r x w p t d e] act the same in
    upper case (the tilt stop [z] is the one letter left out). *)
Theorem commands_ignore_case (fuel : nat) (t : string) (w : World A) (c : ascii) :
  In c ["v"; "m"; "q"; "n"; "c"; "r"; "x"; "w"; "p"; "t"; "d"; "e"]%char ->
  dispatch fuel (String (toupper c) t) w = dispatch fuel (String c t) w.
Proof.
  intros Hc. cbn [In] in Hc.
  repeat destruct Hc as [<- | Hc]; try contradiction;
    unfold dispatch; cbn [toupper N_of_ascii];
    rewrite !trim_nonspace_head by reflexivity; reflexivity.
Qed.

(** X5: a command that returns appends exactly one line to the serial
    output, and that line is one of sixteen fixed texts or a microstep
    acknowledgement; ["OK SPEED"] and ["OK STOP"] are never sent. *)
Theorem one_reply_per_command (fuel : nat) (input : string) (w w' : World A) (c : ascii) :
  first_nonspace input = Some c ->
  dispatch fuel input w = Some w' ->
  exists msg, is_reply msg /\ serial_out w' = serial_out w ++ [msg].
Proof.
  intros Hfirst. destruct (first_nonspace_trim _ _ Hfirst) as [t Ht].
  unfold dispatch. rewrite Ht. cbn [String.length Nat.eqb charAt String.get].
  destruct (sscanf_ff (c_str_plus1 (String c t))) as [[n panDeg] tiltDeg].
  destruct (maxSpeed fuel (turntableStepper w)) eqn:Emax.
  { exfalso. clear -Emax. revert Emax.
    generalize (turntableStepper w). induction fuel; intros g; cbn; [discriminate | apply IHfuel]. }
  by_branch ltac:(intros [= <-]; eexists; split; cycle 1;
                  [ reflexivity
                  | first [ solve [ left; cbn [fixed_replies In];
                                    repeat (first [ left; reflexivity | right ]) ]
                          | right; eexists; reflexivity ] ]).
  all: try discriminate.
  all: rewrite orb_true_r in *; discriminate.
Qed.

(** X6: the dispatcher fails to return exactly for the lines whose
    command character is ['+'] or ['-'], whatever the bound on the nested
    calls; every other line is answered. *)
Theorem hangs_exactly_on_speed_commands (fuel : nat) (input : string) (w : World A) :
  dispatch fuel input w = None
  <-> (first_nonspace input = Some "+"%char \/ first_nonspace input = Some "-"%char).
Proof.
  split.
  - intros Hnone. destruct (first_nonspace input) as [c|] eqn:Hfirst.
    + destruct (Ascii.eqb_spec c "+") as [->|Hp]; [now left|].
      destruct (Ascii.eqb_spec c "-") as [->|Hm]; [now right|].
      exfalso. revert Hnone.
      destruct (first_nonspace_trim _ _ Hfirst) as [t Ht].
      unfold dispatch. rewrite Ht. cbn [String.length Nat.eqb charAt String.get].
      apply Ascii.eqb_neq in Hp, Hm. rewrite Hp, Hm. cbn [orb].
      destruct (sscanf_ff (c_str_plus1 (String c t))) as [[n panDeg] tiltDeg].
      by_branch ltac:(discriminate).
    + rewrite (blank_line_is_ignored fuel input w Hfirst) in Hnone. discriminate.
  - intros Hc. apply (speed_adjust_diverges fuel input w) with
      (c := match first_nonspace input with Some c => c | None => zero end).
    + destruct Hc as [-> | ->]; reflexivity.
    + destruct Hc as [-> | ->]; [now left | now right].
Qed.

(** X7: [GearedStepper::acceleration()], like [maxSpeed()], calls
    itself: it returns for no bound on the nested calls. *)
Theorem acceleration_never_returns (fuel : nat) (g : GearedStepper A) :
  acceleration fuel g = None.
Proof. induction fuel as [|fuel IH]; [reflexivity | exact IH]. Qed.

(** X8: after ['d'] the enable line of both axes reads HIGH and after
    ['e'] LOW, whatever it read before (so repeating the command changes
    nothing more); the motion primitives are not touched. *)
Theorem driver_commands_set_the_enable_line
    (fuel : nat) (input : string) (w : World A) (c : ascii) :
  first_nonspace input = Some c ->
  In c ["d"; "D"; "e"; "E"]%char ->
  let v := if (c =? "d")%char || (c =? "D")%char then HIGH else LOW in
  let msg := if (c =? "d")%char || (c =? "D")%char
             then "OK DRIVERS OFF"%string else "OK DRIVERS ON"%string in
  exists w',
    dispatch fuel input w = Some w'
    /\ pin_level (_enable_pin (turntableStepper w')) (pins w') = Some v
    /\ pin_level (_enable_pin (tiltStepper w')) (pins w') = Some v
    /\ turntableStepper w' = turntableStepper w
    /\ tiltStepper w' = tiltStepper w
    /\ serial_out w' = serial_out w ++ [msg].
Proof.
  intros Hfirst Hc. at_head Hfirst. cbn [In] in Hc.
  repeat destruct Hc as [<- | Hc]; try contradiction;
    eexists; (split; [reflexivity|]); cbn; rewrite !N.eqb_refl;
    destruct (_enable_pin (tiltStepper w) =? _enable_pin (turntableStepper w))%N;
    repeat split.
Qed.

(** X9: the pan toggle ['r'] negates the pan direction sign and keeps
    the tilt one, the tilt toggle ['t'] negates the tilt sign and keeps the
    pan one; a second toggle of the same axis restores the sign; neither
    touches the primitives or the lines, and each is acknowledged with the
    reply of its own axis. *)
Theorem direction_toggle_is_an_involution
    (fuel : nat) (input1 input2 : string) (w : World A) (c1 c2 : ascii) :
  first_nonspace input1 = Some c1 -> first_nonspace input2 = Some c2 ->
  (In c1 ["r"; "R"]%char -> In c2 ["r"; "R"]%char ->
   exists w1 w2,
     dispatch fuel input1 w = Some w1
     /\ dispatch fuel input2 w1 = Some w2
     /\ rot_dir w1 = - rot_dir w /\ til_dir w1 = til_dir w
     /\ rot_dir w2 = rot_dir w /\ til_dir w2 = til_dir w
     /\ turntableStepper w1 = turntableStepper w /\ tiltStepper w1 = tiltStepper w
     /\ turntableStepper w2 = turntableStepper w /\ tiltStepper w2 = tiltStepper w
     /\ pins w1 = pins w /\ pins w2 = pins w
     /\ serial_out w1 = serial_out w ++ ["OK ROT DIR"]%string
     /\ serial_out w2 = serial_out w ++ ["OK ROT DIR"; "OK ROT DIR"]%string)
  /\ (In c1 ["t"; "T"]%char -> In c2 ["t"; "T"]%char ->
      exists w1 w2,
        dispatch fuel input1 w = Some w1
        /\ dispatch fuel input2 w1 = Some w2
        /\ til_dir w1 = - til_dir w /\ rot_dir w1 = rot_dir w
        /\ til_dir w2 = til_dir w /\ rot_dir w2 = rot_dir w
        /\ turntableStepper w1 = turntableStepper w /\ tiltStepper w1 = tiltStepper w
        /\ turntableStepper w2 = turntableStepper w /\ tiltStepper w2 = tiltStepper w
        /\ pins w1 = pins w /\ pins w2 = pins w
        /\ serial_out w1 = serial_out w ++ ["OK TILT DIR"]%string
        /\ serial_out w2 = serial_out w ++ ["OK TILT DIR"; "OK TILT DIR"]%string).
Proof.
  intros H1 H2.
  destruct (first_nonspace_trim _ _ H1) as [t1 Ht1].
  destruct (first_nonspace_trim _ _ H2) as [t2 Ht2].
  unfold dispatch. rewrite Ht1, Ht2.
  cbn [String.length Nat.eqb charAt String.get] in *.
  split; intros Ha Hb; cbn [In] in Ha, Hb;
    repeat destruct Ha as [<- | Ha]; try contradiction;
    repeat destruct Hb as [<- | Hb]; try contradiction;
    do 2 eexists; (split; [reflexivity|]); (split; [reflexivity|]);
    cbn; rewrite ?Z.opp_involutive, <- ?app_assoc; repeat split; auto.
Qed.

End DispatcherMore.

Section DispatcherMore2.

Context {A : Type} `{AccelStepper A} `{Libc}.

(** X10: a microstep command ['1'], ['2'], ['4'], ['8'] or ['6'] stores
    the digit (16 for ['6']) in both axis objects, drives the shared select
    lines to its pattern, leaves the enable line, the queued targets and the
    direction signs alone, and acknowledges with the number. *)
Theorem microstep_command_sets_both_axes
    (fuel : nat) (input : string) (w : World A) (c : ascii) :
  constructed w ->
  first_nonspace input = Some c ->
  In c ["1"; "2"; "4"; "8"; "6"]%char ->
  let n := if (c =? "6")%char then 16 else Z.of_N (N_of_ascii c) - 48 in
  let '(v1, v2, v3) := select_pattern n in
  exists w',
    dispatch fuel input w = Some w'
    /\ valid_microstep n
    /\ getMicrostepResolution (turntableStepper w') = n
    /\ getMicrostepResolution (tiltStepper w') = n
    /\ select_levels (turntableStepper w') (pins w') = (Some v1, Some v2, Some v3)
    /\ select_levels (tiltStepper w') (pins w') = (Some v1, Some v2, Some v3)
    /\ pin_level D0 (pins w') = pin_level D0 (pins w)
    /\ _stepper (turntableStepper w') = _stepper (turntableStepper w)
    /\ _stepper (tiltStepper w') = _stepper (tiltStepper w)
    /\ rot_dir w' = rot_dir w /\ til_dir w' = til_dir w
    /\ serial_out w' = serial_out w ++ [("OK MICROSTEP " ++ String_of_int n)%string].
Proof.
  intros [(_ & T1 & T2 & T3 & _) (_ & V1 & V2 & V3 & _)] Hfirst Hc.
  cbn [boot turntableStepper tiltStepper GearedStepper_new _ms1_pin _ms2_pin _ms3_pin]
    in T1, T2, T3, V1, V2, V3.
  at_head Hfirst. cbn [In] in Hc.
  repeat destruct Hc as [<- | Hc]; try contradiction;
    cbn -[valid_microstep String_of_int]; unfold select_levels;
    cbn -[valid_microstep String_of_int];
    rewrite ?T1, ?T2, ?T3, ?V1, ?V2, ?V3;
    eexists; (split; [reflexivity|]);
    cbn -[valid_microstep String_of_int];
    rewrite ?T1, ?T2, ?T3, ?V1, ?V2, ?V3; cbn -[valid_microstep String_of_int];
    (split; [unfold valid_microstep; lia|]); repeat split.
Qed.

(** X11: at a listed microstep setting, the full-revolution jog of
    either axis queues the direction sign times the pulse count that the
    conversion gives for 360 degrees. *)
Theorem full_revolution_jog_is_the_360_conversion
    (fuel : nat) (input : string) (w : World A) (c : ascii) :
  constructed w ->
  valid_microstep (getMicrostepResolution (turntableStepper w)) ->
  valid_microstep (getMicrostepResolution (tiltStepper w)) ->
  first_nonspace input = Some c ->
  (In c ["c"; "C"]%char ->
   dispatch fuel input w
   = Some (ack "OK ROT REV"
             (on_tt (move (rot_dir w
                           * degToMicrosteps (turntableStepper w) (of_decimal 3600 1))) w)))
  /\ (In c ["p"; "P"]%char ->
      dispatch fuel input w
      = Some (ack "OK TILT REV"
                (on_vt (move (til_dir w
                              * degToMicrosteps (tiltStepper w) (of_decimal 3600 1))) w))).
Proof.
  intros Hw Ht Hv Hfirst.
  destruct (full_turn_of_the_axes w Hw) as [Htt Hvt].
  rewrite (Htt Ht), (Hvt Hv).
  assert (To : getOutputStepsPerRotation (turntableStepper w) = 1134
               /\ getOutputStepsPerRotation (tiltStepper w) = 4650).
  { destruct Hw as [(_ & _ & _ & _ & Tb & Tg) (_ & _ & _ & _ & Vb & Vg)].
    unfold getOutputStepsPerRotation. rewrite Tb, Tg, Vb, Vg. split; vm_compute; reflexivity. }
  destruct To as [To Vo].
  split; intros Hc; at_head Hfirst; cbn [In] in Hc;
    repeat destruct Hc as [<- | Hc]; try contradiction;
    cbn [Ascii.eqb Bool.eqb orb strchr andb]; rewrite ?To, ?Vo; reflexivity.
Qed.

End DispatcherMore2.

(** ** Sign symmetry of the conversion *)

Lemma round_aux_opp (s : bool) (m e : Z) (l : location) :
  binary_round_aux prec emax (negb s) m e l = opp (binary_round_aux prec emax s m e l).
Proof.
  unfold binary_round_aux.
  destruct (shr_fexp prec emax m e l) as [mrs1 e1].
  destruct (shr_fexp prec emax _ e1 loc_Exact) as [mrs2 e2].
  destruct (shr_m mrs2); try reflexivity.
  destruct (e2 <=? emax - prec); reflexivity.
Qed.

Lemma div_opp_l (x y : float32) : div (opp x) y = opp (div x y).
Proof.
  unfold div, SFdiv.
  destruct x as [sx|sx| |sx mx ex], y as [sy|sy| |sy my ey];
    cbn [opp SFopp]; rewrite <- ?negb_xorb_l; try reflexivity.
  destruct (SFdiv_core_binary prec emax (Zpos mx) ex (Zpos my) ey) as [[mz ez] lz].
  apply round_aux_opp.
Qed.

Lemma mul_opp_l (x y : float32) : mul (opp x) y = opp (mul x y).
Proof.
  unfold mul, SFmul.
  destruct x as [sx|sx| |sx mx ex], y as [sy|sy| |sy my ey];
    cbn [opp SFopp]; rewrite <- ?negb_xorb_l; try reflexivity.
  apply round_aux_opp.
Qed.

Section ConversionMore.

Context {A : Type} `{AccelStepper A} `{Libc}.

Lemma lroundf_opp (x : float32) :
  lroundf_defined x -> lroundf (opp x) = - lroundf x.
Proof.
  destruct x as [s|s| |s m e]; cbn [lroundf_defined]; try contradiction; [reflexivity|].
  intros Hdef. pose proof (F32Facts.round_half_away_nonneg m e) as Hpos.
  assert (Hneg : in_long (- round_half_away m e) = true).
  { apply in_long_range. apply in_long_range in Hdef. lia. }
  unfold lroundf. cbn [opp SFopp].
  destruct s; cbn [negb]; rewrite Hdef, Hneg; lia.
Qed.

(** X12: the conversion is odd: where [lroundf] is defined for the
    product, negating the angle negates the pulse count. *)
Theorem conversion_is_odd (g : GearedStepper A) (deg : float32) :
  lroundf_defined
    (mul (div deg (of_decimal 3600 1))
         (of_Z (getOutputStepsPerRotation g * getMicrostepResolution g))) ->
  degToMicrosteps g (opp deg) = - degToMicrosteps g deg.
Proof.
  intros Hdef. unfold degToMicrosteps.
  rewrite div_opp_l, mul_opp_l. apply lroundf_opp. exact Hdef.
Qed.

(** X13: zero degrees, of either sign, are zero pulses, for every axis
    whose stored resolution is an [int]. *)
Theorem zero_degrees_is_zero_pulses (g : GearedStepper A) (s : bool) :
  in_long (getMicrostepResolution g) = true ->
  degToMicrosteps g (S754_zero s) = 0.
Proof.
  intros Hres. unfold degToMicrosteps.
  set (u := getOutputStepsPerRotation g * getMicrostepResolution g).
  assert (Hu : Z.abs u < 2 ^ 64).
  { pose proof (lroundf_in_long
                  (mul (of_Z (_base_steps_per_rot g)) (_gear_ratio g))) as Ho.
    fold (getOutputStepsPerRotation g) in Ho.
    apply in_long_range in Ho, Hres. unfold u.
    change (2 ^ 31) with 2147483648 in *. change (2 ^ 64) with 18446744073709551616. nia. }
  change (div (S754_zero s) (of_decimal 3600 1)) with (S754_zero (xorb s false)).
  destruct (Z.eq_dec u 0) as [->|Hu0]; [reflexivity|].
  destruct (F32Facts.of_Z_scaled u 0 Hu0) as (mo & eo & _ & -> & _);
    [lia | rewrite Z.pow_0_r; lia |].
  reflexivity.
Qed.

(** ** What the program keeps true *)

Lemma setup_events (banner : string) (w : World A) :
  exists evs, pins (setup banner w) = evs ++ pins w
              /\ Forall drives_high evs
              /\ (forall g, g = turntableStepper w \/ g = tiltStepper w ->
                    In (DigitalWrite (_enable_pin g) HIGH) evs
                    /\ In (DigitalWrite (_ms1_pin g) HIGH) evs
                    /\ In (DigitalWrite (_ms2_pin g) HIGH) evs
                    /\ In (DigitalWrite (_ms3_pin g) HIGH) evs).
Proof.
  eexists. split; [exact (eq_refl : _ = [_;_;_;_;_;_;_;_;_;_;_;_;_;_;_;_] ++ pins w)|].
  split; [repeat constructor|].
  intros g [-> | ->]; cbn; tauto.
Qed.

(** X14: [setup] leaves both axes at resolution 16 with their enable
    and select lines HIGH (drivers off), whatever the state before; it keeps
    the direction signs and prints the banner as one line. *)
Theorem setup_state (banner : string) (w : World A) :
  let w' := setup banner w in
  getMicrostepResolution (turntableStepper w') = 16
  /\ getMicrostepResolution (tiltStepper w') = 16
  /\ pin_level (_enable_pin (turntableStepper w')) (pins w') = Some HIGH
  /\ pin_level (_enable_pin (tiltStepper w')) (pins w') = Some HIGH
  /\ select_levels (turntableStepper w') (pins w') = (Some HIGH, Some HIGH, Some HIGH)
  /\ select_levels (tiltStepper w') (pins w') = (Some HIGH, Some HIGH, Some HIGH)
  /\ rot_dir w' = rot_dir w /\ til_dir w' = til_dir w
  /\ serial_out w' = serial_out w ++ [banner].
Proof.
  cbv zeta. destruct (setup_events banner w) as (evs & Hp & Hhigh & Hin).
  destruct (Hin _ (or_introl eq_refl)) as (Te & T1 & T2 & T3).
  destruct (Hin _ (or_intror eq_refl)) as (Ve & V1 & V2 & V3).
  unfold select_levels. rewrite Hp.
  change (_enable_pin (turntableStepper (setup banner w))) with (_enable_pin (turntableStepper w)).
  change (_enable_pin (tiltStepper (setup banner w))) with (_enable_pin (tiltStepper w)).
  change (_ms1_pin (turntableStepper (setup banner w))) with (_ms1_pin (turntableStepper w)).
  change (_ms2_pin (turntableStepper (setup banner w))) with (_ms2_pin (turntableStepper w)).
  change (_ms3_pin (turntableStepper (setup banner w))) with (_ms3_pin (turntableStepper w)).
  change (_ms1_pin (tiltStepper (setup banner w))) with (_ms1_pin (tiltStepper w)).
  change (_ms2_pin (tiltStepper (setup banner w))) with (_ms2_pin (tiltStepper w)).
  change (_ms3_pin (tiltStepper (setup banner w))) with (_ms3_pin (tiltStepper w)).
  rewrite !(pin_level_written_high evs (pins w)) by assumption.
  repeat split.
Qed.

Lemma dispatch_consistent (fuel : nat) (input : string) (w w' : World A) :
  consistent w -> dispatch fuel input w = Some w' -> consistent w'.
Proof.
  intros (Hc & Hres & Hr & Ht). unfold dispatch, consistent.
  destruct (sscanf_ff (c_str_plus1 (trim input))) as [[n panDeg] tiltDeg].
  destruct (maxSpeed fuel (turntableStepper w)).
  all: by_branch ltac:(intros [= <-]; cbn;
                       (split; [exact Hc|]); (split; [first [exact Hres | reflexivity]|]);
                       split; lia).
Qed.

(** X15: in every state the program reaches from [setup], the two
    objects are the constructed ones, both axes store the same microstep
    resolution and both direction signs are 1 or -1. *)
Theorem program_state_stays_consistent
    (fuel : nat) (banner : string) (inputs : list (option string)) (w' : World A) :
  loops fuel inputs (setup banner boot) = Some w' -> consistent w'.
Proof.
  assert (Hinit : consistent (setup banner boot))
    by (repeat split; cbn; auto).
  revert Hinit. generalize (setup banner boot). induction inputs as [|a rest IH]; intros w Hw.
  - intros [= <-]. exact Hw.
  - cbn [loops]. destruct (loop fuel a w) as [w1|] eqn:El; [|discriminate].
    apply IH. unfold loop in El. destruct a as [input|].
    + refine (dispatch_consistent fuel input _ w1 _ El).
      destruct Hw as (Hc & Hres & Hr & Ht). repeat split; try apply Hc; assumption.
    + injection El as <-. destruct Hw as (Hc & Hres & Hr & Ht).
      repeat split; try apply Hc; assumption.
Qed.

End ConversionMore.

(** ** The select lines and the stored setting *)

Lemma strchr_12486 (c : ascii) :
  strchr "12486" c = true ->
  In c ["1"; "2"; "4"; "8"; "6"; zero]%char.
Proof.
  cbn [strchr In].
  destruct (Ascii.eqb_spec "1" c); [auto|].
  destruct (Ascii.eqb_spec "2" c); [auto|].
  destruct (Ascii.eqb_spec "4" c); [auto|].
  destruct (Ascii.eqb_spec "8" c); [auto|].
  destruct (Ascii.eqb_spec "6" c); [auto 6|].
  destruct (Ascii.eqb_spec c zero); [auto 7 | discriminate].
Qed.

Section LinesInvariant.

Context {A : Type} `{AccelStepper A} `{Libc}.

Lemma dispatch_lines_agree (fuel : nat) (input : string) (w w' : World A) :
  constructed w -> lines_agree w ->
  dispatch fuel input w = Some w' -> lines_agree w'.
Proof.
  intros [(T0 & T1 & T2 & T3 & _) (V0 & V1 & V2 & V3 & _)] Hl.
  cbn [boot turntableStepper tiltStepper GearedStepper_new
       _enable_pin _ms1_pin _ms2_pin _ms3_pin] in T0, T1, T2, T3, V0, V1, V2, V3.
  unfold lines_agree, select_levels in *. rewrite T1, T2, T3 in Hl.
  unfold dispatch.
  destruct (sscanf_ff (c_str_plus1 (trim input))) as [[n panDeg] tiltDeg].
  destruct (maxSpeed fuel (turntableStepper w)).
  all: by_branch ltac:(intros [= <-];
                       cbn -[valid_microstep select_pattern];
                       unfold enable, disable, digitalWrite;
                       rewrite ?T0, ?T1, ?T2, ?T3, ?V0, ?V1, ?V2, ?V3;
                       cbn -[valid_microstep select_pattern]; exact Hl).
  all: intros [= <-].
  all: match goal with E : strchr _ _ = true |- _ => apply strchr_12486 in E; cbn [In] in E;
         repeat destruct E as [<- | E]; try contradiction end.
  all: cbn -[valid_microstep select_pattern];
       rewrite ?T0, ?T1, ?T2, ?T3, ?V0, ?V1, ?V2, ?V3;
       cbn -[valid_microstep].
  all: lazymatch goal with
       | |- _ /\ (valid_microstep ?r -> _) =>
           first [ split; [ exists r; split; [unfold valid_microstep; lia | reflexivity]
                          | intros _; reflexivity ]
                 | split; [ exact (proj1 Hl) | unfold valid_microstep; lia ] ]
       end.
Qed.

End LinesInvariant.

(** ** More commands and cycles *)

Section DispatcherMore3.

Context {A : Type} `{AccelStepper A} `{Libc}.

(** X16: a move command whose arguments scan as two numbers queues a
    relative move of the converted pulse counts on each axis, drives both
    enable lines LOW and answers ["OK M"]; the direction signs play no part
    and stay as they are. *)
Theorem move_command_enables_and_queues
    (fuel : nat) (input : string) (w : World A) (c : ascii) (a b : float32) :
  first_nonspace input = Some c ->
  In c ["M"; "m"]%char ->
  sscanf_ff (c_str_plus1 (trim input)) = (2, a, b) ->
  exists w',
    dispatch fuel input w = Some w'
    /\ turntableStepper w' = move (degToMicrosteps (turntableStepper w) a) (turntableStepper w)
    /\ tiltStepper w' = move (degToMicrosteps (tiltStepper w) b) (tiltStepper w)
    /\ pin_level (_enable_pin (turntableStepper w')) (pins w') = Some LOW
    /\ pin_level (_enable_pin (tiltStepper w')) (pins w') = Some LOW
    /\ rot_dir w' = rot_dir w /\ til_dir w' = til_dir w
    /\ serial_out w' = serial_out w ++ ["OK M"%string].
Proof.
  intros Hfirst Hc Hscan.
  destruct (first_nonspace_trim _ _ Hfirst) as [t Ht].
  unfold dispatch. rewrite Ht in *.
  cbn [String.length Nat.eqb charAt String.get] in *. rewrite Hscan. cbn [In] in Hc.
  repeat destruct Hc as [<- | Hc]; try contradiction;
    eexists; (split; [reflexivity|]); cbn -[degToMicrosteps]; rewrite !N.eqb_refl;
    destruct (_enable_pin (tiltStepper w) =? _enable_pin (turntableStepper w))%N;
    repeat split.
Qed.

(** X17: after a direction toggle the single-step jog of that axis
    moves by the negated sign; the other axis and the lines are not
    touched. *)
Theorem toggle_reverses_the_next_jog
    (fuel : nat) (input1 input2 : string) (w : World A) (c1 c2 : ascii) :
  first_nonspace input1 = Some c1 -> first_nonspace input2 = Some c2 ->
  (In c1 ["r"; "R"]%char -> In c2 ["n"; "N"]%char ->
   exists w1 w2,
     dispatch fuel input1 w = Some w1 /\ dispatch fuel input2 w1 = Some w2
     /\ turntableStepper w2 = move (- rot_dir w) (turntableStepper w)
     /\ tiltStepper w2 = tiltStepper w /\ pins w2 = pins w)
  /\ (In c1 ["t"; "T"]%char -> In c2 ["w"; "W"]%char ->
      exists w1 w2,
        dispatch fuel input1 w = Some w1 /\ dispatch fuel input2 w1 = Some w2
        /\ tiltStepper w2 = move (- til_dir w) (tiltStepper w)
        /\ turntableStepper w2 = turntableStepper w /\ pins w2 = pins w).
Proof.
  intros H1 H2.
  destruct (first_nonspace_trim _ _ H1) as [t1 Ht1].
  destruct (first_nonspace_trim _ _ H2) as [t2 Ht2].
  unfold dispatch. rewrite Ht1, Ht2.
  cbn [String.length Nat.eqb charAt String.get] in *.
  split; intros Ha Hb; cbn [In] in Ha, Hb;
    repeat destruct Ha as [<- | Ha]; try contradiction;
    repeat destruct Hb as [<- | Hb]; try contradiction;
    do 2 eexists; (split; [reflexivity|]); (split; [reflexivity|]); repeat split.
Qed.

(** X18: a cycle without a line, or with a blank one, advances both
    motion primitives by one [run()] and does nothing else: no line driven,
    no reply, same signs and resolutions. *)
Theorem idle_cycle_only_runs (fuel : nat) (available : option string) (w : World A) :
  (forall input, available = Some input -> first_nonspace input = None) ->
  exists w',
    loop fuel available w = Some w'
    /\ _stepper (turntableStepper w') = fst (stp_run (_stepper (turntableStepper w)))
    /\ _stepper (tiltStepper w') = fst (stp_run (_stepper (tiltStepper w)))
    /\ pins w' = pins w /\ serial_out w' = serial_out w
    /\ rot_dir w' = rot_dir w /\ til_dir w' = til_dir w
    /\ getMicrostepResolution (turntableStepper w')
       = getMicrostepResolution (turntableStepper w)
    /\ getMicrostepResolution (tiltStepper w') = getMicrostepResolution (tiltStepper w).
Proof.
  intros Hblank. unfold loop. destruct available as [input|].
  - unfold dispatch. rewrite (first_nonspace_none _ (Hblank input eq_refl)).
    eexists. split; [reflexivity|]. repeat split.
  - eexists. split; [reflexivity|]. repeat split.
Qed.

(** X19: with the gear ratio 1.0 (the default of the constructor) the
    output steps per rotation are the base steps, for base step counts below
    [2^24] in magnitude. *)
Theorem unit_gear_ratio_keeps_the_base_steps (g : GearedStepper A) :
  getGearRatio g = one ->
  Z.abs (getBaseStepsPerRotation g) < 2 ^ 24 ->
  getOutputStepsPerRotation g = getBaseStepsPerRotation g.
Proof.
  unfold getGearRatio, getBaseStepsPerRotation, getOutputStepsPerRotation.
  intros -> Hb. set (b := _base_steps_per_rot g) in *.
  change (2 ^ 24) with 16777216 in Hb.
  rewrite F32Facts.mul_comm.
  destruct (Z.eq_dec b 0) as [->|Hb0]; [reflexivity|].
  assert (Hsig : sig24 b).
  { right. exists (Z.to_pos (Z.abs b)), 0. split; [lia|]. split.
    - rewrite Z2Pos.id by lia. lia.
    - apply F32Facts.digits_le; [lia|]. rewrite Z2Pos.id by lia.
      change (2 ^ 24) with 16777216. lia. }
  destruct (F32Facts.of_Z_exact b Hsig Hb0) as (m & e & -> & Hval);
    [change (2 ^ 64) with 18446744073709551616; lia|].
  unfold lroundf. rewrite Hval.
  replace (if sign_of b then - Z.abs b else Z.abs b) with b
    by (unfold sign_of; destruct (Z.ltb_spec b 0); lia).
  replace (in_long b) with true; [reflexivity|].
  symmetry. apply in_long_range. change (2 ^ 31) with 2147483648. lia.
Qed.

(** X20: a line whose command character is the NUL byte is taken for a
    microstep command ([strchr] matches the terminator of ["12486"]): both
    axes store -48, no select line is driven and the reply is
    ["OK MICROSTEP -48"]. *)
Theorem nul_command_stores_minus_48 (fuel : nat) (input : string) (w : World A) :
  first_nonspace input = Some zero ->
  exists w',
    dispatch fuel input w = Some w'
    /\ getMicrostepResolution (turntableStepper w') = -48
    /\ getMicrostepResolution (tiltStepper w') = -48
    /\ ~ valid_microstep (getMicrostepResolution (turntableStepper w'))
    /\ pins w' = pins w
    /\ serial_out w' = serial_out w ++ ["OK MICROSTEP -48"%string].
Proof.
  intros Hfirst. at_head Hfirst.
  eexists. split; [reflexivity|]. cbn. repeat split. unfold valid_microstep. lia.
Qed.

(** X21: in every state the program reaches from [setup], the select
    lines carry the pattern of a listed setting, and that of the stored
    resolution whenever the stored one is listed. *)
Theorem select_lines_follow_the_stored_setting
    (fuel : nat) (banner : string) (inputs : list (option string)) (w' : World A) :
  loops fuel inputs (setup banner boot) = Some w' -> lines_agree w'.
Proof.
  assert (Hinit : constructed (setup banner boot) /\ lines_agree (setup banner boot)).
  { split; [repeat split|]. split.
    - exists 16. split; [unfold valid_microstep; lia | reflexivity].
    - intros _. reflexivity. }
  revert Hinit. generalize (setup banner boot).
  induction inputs as [|a rest IH]; intros w [Hc Hl].
  - intros [= <-]. exact Hl.
  - cbn [loops]. destruct (loop fuel a w) as [w1|] eqn:El; [|discriminate].
    apply IH. unfold loop in El.
    set (wr := on_vt (fun g => fst (run g)) (on_tt (fun g => fst (run g)) w)) in El.
    assert (Hr : constructed wr /\ lines_agree wr) by (split; [exact Hc | exact Hl]).
    destruct a as [input|].
    + split.
      * exact (dispatch_constructed fuel input wr w1 (proj1 Hr) El).
      * exact (dispatch_lines_agree fuel input wr w1 (proj1 Hr) (proj2 Hr) El).
    + injection El as <-. exact Hr.
Qed.

End DispatcherMore3.

(** ** The further properties at concrete inputs *)

Lemma select_lines_encode_the_setting_witness :
  select_pins_distinct (turntableStepper Ref.ready)
  /\ valid_microstep 8
  /\ select_levels
       (fst (setMicrostepResolution 8 (turntableStepper Ref.ready) (pins Ref.ready)))
       (snd (setMicrostepResolution 8 (turntableStepper Ref.ready) (pins Ref.ready)))
     = (Some HIGH, Some HIGH, Some LOW).
Proof.
  assert (Hd : select_pins_distinct (turntableStepper Ref.ready))
    by (repeat split; discriminate).
  assert (Hv : valid_microstep 8) by (do 3 right; left; reflexivity).
  split; [exact Hd|]. split; [exact Hv|].
  pose proof (select_lines_encode_the_setting 8 (turntableStepper Ref.ready)
                (pins Ref.ready) Hd Hv) as Hx.
  exact (proj1 (proj2 Hx)).
Defined.

Lemma text_after_the_command_is_ignored_witness :
  first_nonspace "  X123" = Some "X"%char
  /\ dispatch 0 "  X123" Ref.ready = dispatch 0 "X" Ref.ready.
Proof.
  split; [reflexivity|].
  apply (text_after_the_command_is_ignored 0 "  X123" Ref.ready "X" eq_refl);
    discriminate.
Defined.

Lemma commands_ignore_case_witness :
  In "q"%char ["v"; "m"; "q"; "n"; "c"; "r"; "x"; "w"; "p"; "t"; "d"; "e"]%char
  /\ dispatch 0 "Q" Ref.ready = dispatch 0 "q" Ref.ready.
Proof.
  assert (Hin : In "q"%char
                  ["v"; "m"; "q"; "n"; "c"; "r"; "x"; "w"; "p"; "t"; "d"; "e"]%char)
    by (cbn; tauto).
  split; [exact Hin|].
  exact (commands_ignore_case 0 EmptyString Ref.ready "q" Hin).
Defined.

Lemma one_reply_per_command_witness :
  first_nonspace "V" = Some "V"%char
  /\ dispatch 0 "V" Ref.ready = Some (ack "VERSION 1.0.1" Ref.ready)
  /\ exists msg, is_reply msg
                 /\ serial_out (ack "VERSION 1.0.1" Ref.ready)
                    = serial_out Ref.ready ++ [msg].
Proof.
  split; [reflexivity|]. split; [reflexivity|].
  exact (one_reply_per_command 0 "V" Ref.ready _ "V" eq_refl eq_refl).
Defined.

Lemma driver_commands_set_the_enable_line_witness :
  first_nonspace "d" = Some "d"%char
  /\ exists w', dispatch 0 "d" Ref.ready = Some w'
                /\ pin_level (_enable_pin (turntableStepper w')) (pins w') = Some HIGH.
Proof.
  split; [reflexivity|].
  destruct (driver_commands_set_the_enable_line 0 "d" Ref.ready "d" eq_refl
              (or_introl eq_refl)) as (w' & Hd & Hlevel & _).
  exists w'. split; [exact Hd | exact Hlevel].
Defined.

Lemma direction_toggle_is_an_involution_witness :
  first_nonspace "r" = Some "r"%char /\ first_nonspace "R" = Some "R"%char
  /\ exists w1 w2, dispatch 0 "r" Ref.ready = Some w1
                   /\ dispatch 0 "R" w1 = Some w2
                   /\ rot_dir w1 = -1 /\ til_dir w1 = 1
                   /\ rot_dir w2 = 1 /\ til_dir w2 = 1.
Proof.
  split; [reflexivity|]. split; [reflexivity|].
  destruct (proj1 (direction_toggle_is_an_involution 0 "r" "R" Ref.ready "r" "R"
                     eq_refl eq_refl))
    as (w1 & w2 & H1 & H2 & Hr1 & Ht1 & Hr2 & Ht2 & _).
  - cbn; tauto.
  - cbn; tauto.
  - exists w1, w2. repeat split; assumption.
Defined.

Lemma microstep_command_sets_both_axes_witness :
  constructed Ref.ready
  /\ first_nonspace "8" = Some "8"%char
  /\ exists w', dispatch 0 "8" Ref.ready = Some w'
                /\ getMicrostepResolution (turntableStepper w') = 8
                /\ select_levels (turntableStepper w') (pins w')
                   = (Some HIGH, Some HIGH, Some LOW).
Proof.
  split; [apply setup_constructed|]. split; [reflexivity|].
  assert (Hin : In "8"%char ["1"; "2"; "4"; "8"; "6"]%char) by (cbn; tauto).
  destruct (microstep_command_sets_both_axes 0 "8" Ref.ready "8"
              (setup_constructed EmptyString) eq_refl Hin)
    as (w' & Hd & _ & Hres & _ & Hsel & _).
  exists w'. repeat split; assumption.
Defined.

Lemma full_revolution_jog_is_the_360_conversion_witness :
  constructed Ref.ready
  /\ valid_microstep (getMicrostepResolution (turntableStepper Ref.ready))
  /\ first_nonspace "c" = Some "c"%char
  /\ dispatch 0 "c" Ref.ready
     = Some (ack "OK ROT REV"
               (on_tt (move (rot_dir Ref.ready
                             * degToMicrosteps (turntableStepper Ref.ready)
                                 (of_decimal 3600 1))) Ref.ready)).
Proof.
  assert (Hv : valid_microstep 16) by (do 4 right; reflexivity).
  split; [apply setup_constructed|]. split; [exact Hv|]. split; [reflexivity|].
  apply (full_revolution_jog_is_the_360_conversion 0 "c" Ref.ready "c"
           (setup_constructed EmptyString) Hv Hv eq_refl).
  cbn. tauto.
Defined.

Lemma conversion_is_odd_witness :
  lroundf_defined
    (mul (div (of_Z 45) (of_decimal 3600 1))
         (of_Z (getOutputStepsPerRotation (turntableStepper Ref.ready)
                * getMicrostepResolution (turntableStepper Ref.ready))))
  /\ degToMicrosteps (turntableStepper Ref.ready) (opp (of_Z 45)) = - 2268
  /\ degToMicrosteps (turntableStepper Ref.ready) (opp (of_Z 45))
     = - degToMicrosteps (turntableStepper Ref.ready) (of_Z 45).
Proof.
  assert (Hdef : lroundf_defined
            (mul (div (of_Z 45) (of_decimal 3600 1))
               (of_Z (getOutputStepsPerRotation (turntableStepper Ref.ready)
                      * getMicrostepResolution (turntableStepper Ref.ready)))))
    by (vm_compute; reflexivity).
  split; [exact Hdef|]. split; [reflexivity|].
  exact (conversion_is_odd (turntableStepper Ref.ready) (of_Z 45) Hdef).
Defined.

Lemma zero_degrees_is_zero_pulses_witness :
  in_long (getMicrostepResolution (tiltStepper Ref.ready)) = true
  /\ degToMicrosteps (tiltStepper Ref.ready) (S754_zero true) = 0.
Proof.
  split; [reflexivity|].
  exact (zero_degrees_is_zero_pulses (tiltStepper Ref.ready) true eq_refl).
Defined.

Lemma program_state_stays_consistent_witness :
  exists w', loops 0 [Some "r"; None; Some "6"]%string (setup EmptyString boot) = Some w'
             /\ consistent w' /\ rot_dir w' = -1.
Proof.
  eexists. split; [reflexivity|]. split; [|reflexivity].
  exact (program_state_stays_consistent 0 EmptyString [Some "r"; None; Some "6"]%string
           _ eq_refl).
Defined.

Lemma move_command_enables_and_queues_witness :
  first_nonspace "m 45 90" = Some "m"%char
  /\ sscanf_ff (c_str_plus1 (trim "m 45 90")) = (2, of_Z 45, of_Z 90)
  /\ exists w', dispatch 0 "m 45 90" Ref.ready = Some w'
                /\ turntableStepper w'
                   = move (degToMicrosteps (turntableStepper Ref.ready) (of_Z 45))
                       (turntableStepper Ref.ready)
                /\ pin_level (_enable_pin (turntableStepper w')) (pins w') = Some LOW.
Proof.
  split; [reflexivity|]. split; [reflexivity|].
  assert (Hin : In "m"%char ["M"; "m"]%char) by (cbn; tauto).
  assert (Hscan : sscanf_ff (c_str_plus1 (trim "m 45 90")) = (2, of_Z 45, of_Z 90))
    by reflexivity.
  destruct (move_command_enables_and_queues 0 "m 45 90" Ref.ready "m" (of_Z 45) (of_Z 90)
              eq_refl Hin Hscan) as (w' & Hd & Ht & _ & Hlow & _).
  exists w'. repeat split; assumption.
Defined.

Lemma toggle_reverses_the_next_jog_witness :
  first_nonspace "t" = Some "t"%char /\ first_nonspace "w" = Some "w"%char
  /\ exists w1 w2, dispatch 0 "t" Ref.ready = Some w1
                   /\ dispatch 0 "w" w1 = Some w2
                   /\ tiltStepper w2 = move (- til_dir Ref.ready) (tiltStepper Ref.ready).
Proof.
  split; [reflexivity|]. split; [reflexivity|].
  destruct (proj2 (toggle_reverses_the_next_jog 0 "t" "w" Ref.ready "t" "w" eq_refl eq_refl))
    as (w1 & w2 & H1 & H2 & Hm & _).
  - cbn. tauto.
  - cbn. tauto.
  - exists w1, w2. repeat split; assumption.
Defined.

Lemma idle_cycle_only_runs_witness :
  first_nonspace "   " = None
  /\ exists w', loop 0 (Some "   "%string) Ref.ready = Some w'
                /\ pins w' = pins Ref.ready /\ serial_out w' = serial_out Ref.ready.
Proof.
  split; [reflexivity|].
  destruct (idle_cycle_only_runs 0 (Some "   "%string) Ref.ready)
    as (w' & Hl & _ & _ & Hp & Hs & _).
  - intros input [= <-]. reflexivity.
  - exists w'. repeat split; assumption.
Defined.

Lemma unit_gear_ratio_keeps_the_base_steps_witness :
  let g := GearedStepper_new (A := SimStepper) D4 D5 D0 D1 D2 D3 200 one in
  getGearRatio g = one
  /\ Z.abs (getBaseStepsPerRotation g) < 2 ^ 24
  /\ getOutputStepsPerRotation g = 200.
Proof.
  cbv zeta. split; [reflexivity|]. split; [reflexivity|].
  exact (unit_gear_ratio_keeps_the_base_steps
           (GearedStepper_new (A := SimStepper) D4 D5 D0 D1 D2 D3 200 one) eq_refl eq_refl).
Defined.

Lemma nul_command_stores_minus_48_witness :
  first_nonspace (String zero "abc") = Some zero
  /\ exists w', dispatch 0 (String zero "abc") Ref.ready = Some w'
                /\ getMicrostepResolution (turntableStepper w') = -48.
Proof.
  split; [reflexivity|].
  destruct (nul_command_stores_minus_48 0 (String zero "abc") Ref.ready eq_refl)
    as (w' & Hd & Hres & _).
  exists w'. split; assumption.
Defined.

Lemma select_lines_follow_the_stored_setting_witness :
  exists w', loops 0 [Some "4"; Some "e"; Some (String zero EmptyString)]%string
               (setup EmptyString boot) = Some w'
             /\ lines_agree w'
             /\ getMicrostepResolution (turntableStepper w') = -48
             /\ select_levels (turntableStepper w') (pins w')
                = (Some LOW, Some HIGH, Some LOW).
Proof.
  eexists. split; [reflexivity|]. split; [|split; reflexivity].
  exact (select_lines_follow_the_stored_setting 0 EmptyString
           [Some "4"; Some "e"; Some (String zero EmptyString)]%string _ eq_refl).
Defined.
